(** * make_devB_patch_v0271_overlay.py

    A shallow embedding of the patchpack helper script
    [_patchB/patchpack/tools/make_devB_patch_v0271_overlay.py] and the
    properties of its three functions [must_find], [write] and [main].

    Python text is modelled by [string]; an exception that leaves a function
    is a [Raise] result; the file system that [write] acts on is a finite map
    from paths to nodes that is passed in and returned, and a call that
    leaves what the map can tell is [Undetermined]; a run of the script
    is an [outcome]: the lines on standard output, what is left on standard
    error, and the exit status.

    The text of the file is part of the model. Seven of the [print] calls
    of [main] (lines 45 to 51) end their literal with a backslash in front
    of the closing quote, which Python reads as an escaped quote: the
    literal of line 45 is not closed when the line ends, and the file is
    rejected as a whole. [run] therefore starts from the text, as Python
    does, and [main] is the function that a file accepted by the compiler
    runs. *)

From Stdlib Require Import String Ascii List Bool Arith Lia.
From stdpp Require Import base gmap strings list.
Import ListNotations.

Local Open Scope string_scope.

(** ** Characters that a Rocq string literal cannot hold directly *)

Definition dq : ascii := "034"%char.   (* the double quote *)
Definition sq : ascii := "039"%char.   (* the single quote *)
Definition bs : ascii := "092"%char.   (* the backslash *)
Definition nl : ascii := "010"%char.   (* the newline *)
Definition hash : ascii := "035"%char.

(** ** Exceptions and results *)

Inductive exn : Type :=
| RuntimeError (msg : string)
| FileNotFoundError
| FileExistsError
| NotADirectoryError
| IsADirectoryError
| TypeError
| NameTooLong          (* [OSError] with [errno.ENAMETOOLONG] *)
| ValueError           (* an embedded null byte in a path *)
| UnicodeEncodeError.

(** The exceptions that [except OSError] catches. *)
Definition is_OSError (e : exn) : bool :=
  match e with
  | FileNotFoundError | FileExistsError | NotADirectoryError | IsADirectoryError
  | NameTooLong => true
  | RuntimeError _ | TypeError | ValueError | UnicodeEncodeError => false
  end.

(** What a call does: it returns, it raises, or the model does not say
    ([Undetermined]: the call reaches a part of the file system that the
    model does not hold). What a call that raises has done before it raised
    is not part of the result. *)
Inductive result (A : Type) : Type :=
| Ok (a : A)
| Raise (e : exn)
| Undetermined.
Arguments Ok {A} a.
Arguments Raise {A} e.
Arguments Undetermined {A}.

Definition bind {A B : Type} (r : result A) (k : A → result B) : result B :=
  match r with
  | Ok a => k a
  | Raise e => Raise e
  | Undetermined => Undetermined
  end.

(** ** Python's [in] on [str] *)

Module PyStr.

(** [startswith s p]: [s.startswith(p)]. *)
Fixpoint startswith (s p : string) {struct p} : bool :=
  match p, s with
  | EmptyString, _ => true
  | String _ _, EmptyString => false
  | String a p', String b s' => if Ascii.eqb a b then startswith s' p' else false
  end.

(** [contains haystack needle]: [needle in haystack], the substring test. *)
Fixpoint contains (haystack needle : string) : bool :=
  startswith haystack needle ||
  match haystack with
  | EmptyString => false
  | String _ rest => contains rest needle
  end.

(** What [needle in haystack] means: the needle occurs somewhere in it. *)
Definition occurs_in (needle haystack : string) : Prop :=
  ∃ before after : string, haystack = before +:+ needle +:+ after.

End PyStr.

(** ** [must_find] (lines 18-20)

<<
def must_find(haystack: str, needle: str, label: str):
    if needle not in haystack:
        raise RuntimeError(f"[{label}] anchor not found:\n{needle}")
>> *)

Definition anchor_message (label needle : string) : string :=
  "[" +:+ label +:+ "] anchor not found:" +:+ String nl needle.

Definition must_find (haystack needle label : string) : result unit :=
  if negb (PyStr.contains haystack needle)
  then Raise (RuntimeError (anchor_message label needle))
  else Ok tt.

(** ** The file system seen by [pathlib]

    A path is kept as [pathlib] takes it apart: its final component
    ([path.name]) in front of its parent ([path.parent]), so [a/b/c] is
    [["c"; "b"; "a"]] and [[]] is the anchor the path starts from (the root,
    or the working directory of a relative path). The anchor is a directory
    that always exists; every other entry is a key of the map.

    The model is a tree of directories and regular files that the process
    may read and change everywhere: it has no symbolic or hard links, no
    permissions, no quota, and its anchor is never removed. Three things
    that a path or a text can bring with them are in the model:
    - a null byte in a component, which Python refuses with [ValueError]
      before it calls the operating system;
    - a component of more than [NAME_MAX] bytes or a path of [PATH_MAX]
      bytes or more, which Linux refuses with [ENAMETOOLONG];
    - a text with a lone surrogate, which UTF-8 cannot encode.
    A component [..] leads to a directory that the tree cannot tell from
    the lists alone; the model stops there with [UNKNOWN] and
    [Undetermined]. A text is kept by its bytes in UTF-8, a surrogate by
    the three bytes that the same bit layout gives it. A component is
    kept by the bytes that the operating system is given for it
    ([os.fsencode]); a path that Python cannot encode for the operating
    system has no counterpart here. The limits and the errors are those
    of Linux. *)

Module FS.

Inductive node : Type :=
| Dir
| File (content : string).

Inductive stat_result : Type :=
| Found (n : node)
| ENOENT        (* a component of the path does not exist *)
| ENOTDIR       (* a component used as a directory is not one *)
| ENAMETOOLONG  (* a component, or the path, is too long *)
| EMBEDDED_NUL  (* the [ValueError] of Python for a null byte *)
| UNKNOWN.      (* the model does not say: the path goes through [..], or
                   its anchor decides whether it is too long *)

(** [of_parts ["a"; "b"; "c"]] is the path [a/b/c]. *)
Definition of_parts (parts : list string) : list string := rev parts.

(** [path.parent]; the anchor is its own parent. *)
Definition parent (p : list string) : list string := tail p.

(** The proper ancestors of a path, nearest first, the anchor last. *)
Fixpoint ancestors (p : list string) : list (list string) :=
  match p with
  | [] => []
  | _ :: par => par :: ancestors par
  end.

(** What is recorded at a path. *)
Definition entry (t : gmap (list string) node) (p : list string) : option node :=
  match p with
  | [] => Some Dir
  | _ :: _ => t !! p
  end.

(** *** What the path itself decides *)

(** The limits of Linux: [NAME_MAX] is that of its usual file systems
    (ext4, tmpfs, btrfs, xfs). *)
Definition NAME_MAX : N := 255.
Definition PATH_MAX : N := 4096.

Fixpoint has_nul (s : string) : bool :=
  match s with
  | EmptyString => false
  | String c rest => Ascii.eqb c "000" || has_nul rest
  end.

Definition name_bytes (c : string) : N := N.of_nat (String.length c).

(** Every component with the separator in front of it. The path that
    the operating system is given has one byte less when it is relative
    ([a/b]), as many when it starts at the root ([/a/b]), and one more
    when it starts at the root [//], which [pathlib] keeps. *)
Fixpoint path_bytes (p : list string) : N :=
  match p with
  | [] => 0
  | c :: par => (name_bytes c + 1 + path_bytes par)%N
  end.

Inductive verdict : Type :=
| Accepted
| NulByte       (* [ValueError: embedded null byte], raised by Python *)
| TooLong       (* the path has [PATH_MAX] bytes or more, however it is anchored *)
| Borderline.   (* the anchor decides, and the model does not know it *)

(** What is decided before any component is looked up: Python refuses a
    null byte, and Linux a path of [PATH_MAX] bytes or more. *)
Definition precheck (p : list string) : verdict :=
  if existsb has_nul p then NulByte
  else if (PATH_MAX <? path_bytes p)%N then TooLong
  else if (PATH_MAX <=? path_bytes p + 1)%N then Borderline
  else Accepted.

(** *** Path resolution *)

(** Looking up the name [c] in the directory [par]. *)
Definition child (t : gmap (list string) node) (c : string) (par : list string)
  : stat_result :=
  if String.eqb c ".." then UNKNOWN
  else if (NAME_MAX <? name_bytes c)%N then ENAMETOOLONG
  else match t !! (c :: par) with
       | Some n => Found n
       | None => ENOENT
       end.

(** The walk along the path: every component above the last one has to
    resolve to a directory. *)
Fixpoint walk (t : gmap (list string) node) (p : list string) : stat_result :=
  match p with
  | [] => Found Dir
  | c :: par =>
      match walk t par with
      | Found Dir => child t c par
      | Found (File _) => ENOTDIR
      | e => e
      end
  end.

(** [os.stat(path)] *)
Definition stat (t : gmap (list string) node) (p : list string) : stat_result :=
  match precheck p with
  | Accepted => walk t p
  | NulByte => EMBEDDED_NUL
  | TooLong => ENAMETOOLONG
  | Borderline => UNKNOWN
  end.

(** [path.is_dir()], where [mkdir] uses it: after [os.mkdir] has raised an
    [OSError] on the same path. Where [stat] fails for the length of a
    name, [is_dir] raises the same [OSError] that [mkdir] is about to
    raise again, so [false] leads to the same result. *)
Definition is_dir (t : gmap (list string) node) (p : list string) : bool :=
  match stat t p with
  | Found Dir => true
  | _ => false
  end.

(** The error of a system call whose path does not resolve to a
    directory in which to work. *)
Definition unresolved {A : Type} (r : stat_result) : result A :=
  match r with
  | ENOENT => Raise FileNotFoundError
  | ENOTDIR | Found _ => Raise NotADirectoryError
  | ENAMETOOLONG => Raise NameTooLong
  | EMBEDDED_NUL => Raise ValueError
  | UNKNOWN => Undetermined
  end.

(** A call on [p], after what the path itself decides. *)
Definition checked {A : Type} (p : list string) (k : result A) : result A :=
  match precheck p with
  | Accepted => k
  | NulByte => Raise ValueError
  | TooLong => Raise NameTooLong
  | Borderline => Undetermined
  end.

(** [os.mkdir(path)]: creates one directory, inside an existing one. *)
Definition os_mkdir (t : gmap (list string) node) (p : list string)
  : result (gmap (list string) node) :=
  checked p
    match p with
    | [] => Raise FileExistsError
    | c :: par =>
        match walk t par with
        | Found Dir =>
            match child t c par with
            | Found _ => Raise FileExistsError
            | ENOENT => Ok (<[p := Dir]> t)
            | e => unresolved e
            end
        | Found (File _) => Raise NotADirectoryError
        | e => unresolved e
        end
    end.

(** [path.mkdir(parents=False, exist_ok=True)]:
<<
      try:
          os.mkdir(self, mode)
      except FileNotFoundError:
          if not parents or self.parent == self:
              raise
          ...
      except OSError:
          if not exist_ok or not self.is_dir():
              raise
>> *)
Definition mkdir_exist_ok (t : gmap (list string) node) (p : list string)
  : result (gmap (list string) node) :=
  match os_mkdir t p with
  | Ok t' => Ok t'
  | Raise FileNotFoundError => Raise FileNotFoundError
  | Raise e => if is_OSError e && is_dir t p then Ok t else Raise e
  | Undetermined => Undetermined
  end.

(** [path.mkdir(parents=True, exist_ok=True)]: as above, and on
    [FileNotFoundError]
<<
          self.parent.mkdir(parents=True, exist_ok=True)
          self.mkdir(mode, parents=False, exist_ok=exist_ok)
>> *)
Fixpoint mkdir_parents (t : gmap (list string) node) (p : list string)
  : result (gmap (list string) node) :=
  match os_mkdir t p with
  | Ok t' => Ok t'
  | Raise FileNotFoundError =>
      match p with
      | [] => Raise FileNotFoundError
      | _ :: par => bind (mkdir_parents t par) (fun t1 => mkdir_exist_ok t1 p)
      end
  | Raise e => if is_OSError e && is_dir t p then Ok t else Raise e
  | Undetermined => Undetermined
  end.

(** *** Text and its encoding *)

(** A surrogate, U+D800 to U+DFFF, in the bit layout of UTF-8: the byte
    [ED] and a byte from [A0] to [BF]. *)
Fixpoint has_surrogate (s : string) : bool :=
  match s with
  | String a (String b _ as rest) =>
      (Ascii.eqb a "237" && (160 <=? nat_of_ascii b)%nat && (nat_of_ascii b <=? 191)%nat)
      || has_surrogate rest
  | _ => false
  end.

(** [content.encode("utf-8")] succeeds. *)
Definition encodable (content : string) : bool := negb (has_surrogate content).

(** [path.write_text(content, encoding="utf-8")]: opens the file for
    writing, which creates or truncates it, and then encodes and writes
    the text. *)
Definition write_text (t : gmap (list string) node) (p : list string) (content : string)
  : result (gmap (list string) node) :=
  checked p
    match p with
    | [] => Raise IsADirectoryError
    | c :: par =>
        match walk t par with
        | Found Dir =>
            match child t c par with
            | Found Dir => Raise IsADirectoryError
            | Found (File _) | ENOENT =>
                if encodable content then Ok (<[p := File content]> t)
                else Raise UnicodeEncodeError
            | e => unresolved e
            end
        | Found (File _) => Raise NotADirectoryError
        | e => unresolved e
        end
    end.

(** A name that the walk looks up: not [..], and not too long. *)
Definition short_name (c : string) : bool :=
  negb (String.eqb c "..") && negb (NAME_MAX <? name_bytes c)%N.

(** A path on which every call gets as far as the tree. *)
Definition walkable (p : list string) : bool :=
  forallb short_name p && negb (existsb has_nul p) && (path_bytes p + 1 <? PATH_MAX)%N.

Fixpoint has_slash (s : string) : bool :=
  match s with
  | EmptyString => false
  | String c rest => Ascii.eqb c "/" || has_slash rest
  end.

(** A name that an entry of a directory can bear: not empty, not [.] or
    [..], without a slash or a null byte, of at most [NAME_MAX] bytes. *)
Definition plain_name (c : string) : bool :=
  negb (String.eqb c EmptyString) && negb (String.eqb c ".") && negb (String.eqb c "..")
  && negb (has_slash c) && negb (has_nul c) && (name_bytes c <=? NAME_MAX)%N.

(** A path that stays in the tree and that the operating system takes:
    every component is a plain name, and the path is shorter than
    [PATH_MAX] however it is anchored. *)
Definition ordinary (p : list string) : bool :=
  forallb plain_name p && (path_bytes p + 1 <? PATH_MAX)%N.

End FS.

(** ** [write] (lines 22-24)

<<
def write(path: Path, content: str):
    path.parent.mkdir(parents=True, exist_ok=True)
    path.write_text(content, encoding="utf-8")
>> *)

Definition write (t : gmap (list string) FS.node) (path : list string) (content : string)
  : result (gmap (list string) FS.node) :=
  bind (FS.mkdir_parents t (FS.parent path)) (fun t1 =>
  FS.write_text t1 path content).

(** ** The text of the script

    The file is kept as its physical lines. [q] joins the pieces of a line
    with the double quote that separates them in the file, so the line
    [x = "a"] is [q ["x = "; "a"; EmptyString]]. *)

Definition q (pieces : list string) : string :=
  String.concat (String dq EmptyString) pieces.

Definition blank : string := EmptyString.

(** Lines 1 to 41: docstring, imports, the two helpers and the head of
    [main]. *)
Definition header_lines : list string :=
  [ (*  1 *) "#!/usr/bin/env python3";
    (*  2 *) q [blank; blank; blank; blank];
    (*  3 *) "make_devB_patch_v0271_overlay.py";
    (*  4 *) blank;
    (*  5 *) "Helper: apply the v0.2.7.1 correctness edits to a checked-out LoM repo and emit an overlay zip";
    (*  6 *) "containing only the touched files.";
    (*  7 *) blank;
    (*  8 *) "NOTE: This script depends on the certified baseline file layout/anchors. If an anchor is missing,";
    (*  9 *) "it will raise with a message indicating which anchor failed. Adjust the anchor strings to match";
    (* 10 *) "your exact baseline.";
    (* 11 *) q [blank; blank; blank; blank];
    (* 12 *) blank;
    (* 13 *) "import argparse";
    (* 14 *) "import re";
    (* 15 *) "import zipfile";
    (* 16 *) "from pathlib import Path";
    (* 17 *) blank;
    (* 18 *) "def must_find(haystack: str, needle: str, label: str):";
    (* 19 *) "    if needle not in haystack:";
    (* 20 *) q ["        raise RuntimeError(f"; "[{label}] anchor not found:\n{needle}"; ")"];
    (* 21 *) blank;
    (* 22 *) "def write(path: Path, content: str):";
    (* 23 *) "    path.parent.mkdir(parents=True, exist_ok=True)";
    (* 24 *) q ["    path.write_text(content, encoding="; "utf-8"; ")"];
    (* 25 *) blank;
    (* 26 *) "def main():";
    (* 27 *) "    ap = argparse.ArgumentParser()";
    (* 28 *) q ["    ap.add_argument("; "--repo"; ", default="; "."; ", help="; "Repo root"; ")"];
    (* 29 *) q ["    ap.add_argument("; "--out"; ", default="; "devB_patch_v0.2.7.1_correctness_overlay.zip"; ", help="; "Output zip name"; ")"];
    (* 30 *) "    args = ap.parse_args()";
    (* 31 *) blank;
    (* 32 *) "    repo = Path(args.repo).resolve()";
    (* 33 *) blank;
    (* 34 *) q ["    # This script is intentionally "; "lightweight"; " in this patchpack:"];
    (* 35 *) "    # it does not fully materialize edits automatically, because baseline anchors can vary slightly";
    (* 36 *) "    # between certified builds. Instead, it provides a structured scaffold:";
    (* 37 *) "    #";
    (* 38 *) "    # 1) Copy PATCH_INSTRUCTIONS.md blocks into the files.";
    (* 39 *) "    # 2) Use this script to zip the touched files.";
    (* 40 *) "    #";
    (* 41 *) "    # If you want a fully automated patcher, use the longer version from the chat thread." ].

(** Lines 42 to 53: the twelve [print] calls of [main]. In lines 45 to 51
    the last character before the closing quote is a backslash. *)
Definition print_lines : list string :=
  [ (* 42 *) q ["    print("; "This patchpack includes PATCH_INSTRUCTIONS.md for applying edits."; ")"];
    (* 43 *) q ["    print("; "After applying, run this command from repo root to produce the overlay zip:"; ")"];
    (* 44 *) "    print()";
    (* 45 *) q ["    print("; "zip -r devB_patch_v0.2.7.1_correctness_overlay.zip \"; ")"];
    (* 46 *) q ["    print("; "  src/sim/turn.ts \"; ")"];
    (* 47 *) q ["    print("; "  src/sim/types.ts \"; ")"];
    (* 48 *) q ["    print("; "  src/sim/peopleFirst.ts \"; ")"];
    (* 49 *) q ["    print("; "  src/sim/court.ts \"; ")"];
    (* 50 *) q ["    print("; "  src/App.tsx \"; ")"];
    (* 51 *) q ["    print("; "  tests/v0271_hotfix_p0_correctness.test.ts \"; ")"];
    (* 52 *) q ["    print("; "  DEV_NOTES.md"; ")"];
    (* 53 *) "    print()" ].

(** Lines 54 to 56. *)
Definition footer_lines : list string :=
  [ (* 54 *) blank;
    (* 55 *) q ["if __name__ == "; "__main__"; ":"];
    (* 56 *) "    main()" ].

(** The module whose [main] has the given [print] lines, and the script. *)
Definition module_text (prints : list string) : string :=
  String.concat (String nl EmptyString) (header_lines ++ prints ++ footer_lines).

Definition source : string := module_text print_lines.

(** ** How Python reads string literals

    Python compiles the whole file before it runs any of it. The part of
    its tokenizer that matters here is the one that delimits comments and
    string literals: in a literal a backslash always takes the next
    character with it, whatever that character is, and a literal opened by
    one quote character (not three) has to be closed before the line
    ends. *)

Module PyLex.

Inductive error : Type :=
| UnterminatedString (line : nat)
| UnterminatedTripleQuoted (line : nat)
| StrayBackslash (line : nat)
| InvalidSyntax.

Inductive mode : Type :=
| Code
| Comment
| Short (quote : ascii)     (* in a literal opened by one quote *)
| Long (quote : ascii).     (* in a literal opened by three quotes *)

Definition is_quote (c : ascii) : bool := Ascii.eqb c dq || Ascii.eqb c sq.

Definition next_line (c : ascii) (line : nat) : nat :=
  if Ascii.eqb c nl then S line else line.

(** [scan m line text]: the first lexical error in [text], which starts in
    mode [m] on line [line], if there is one. *)
Fixpoint scan (m : mode) (line : nat) (text : string) : option error :=
  match text with
  | EmptyString =>
      match m with
      | Code | Comment => None
      | Short _ => Some (UnterminatedString line)
      | Long _ => Some (UnterminatedTripleQuoted line)
      end
  | String c rest =>
      match m with
      | Code =>
          if Ascii.eqb c nl then scan Code (S line) rest
          else if Ascii.eqb c hash then scan Comment line rest
          else if is_quote c then
            match rest with
            | String c1 (String c2 rest2) =>
                if Ascii.eqb c1 c && Ascii.eqb c2 c
                then scan (Long c) line rest2
                else scan (Short c) line rest
            | _ => scan (Short c) line rest
            end
          else if Ascii.eqb c bs then
            match rest with
            | String c1 rest1 =>
                if Ascii.eqb c1 nl then scan Code (S line) rest1
                else Some (StrayBackslash line)
            | EmptyString => Some (StrayBackslash line)
            end
          else scan Code line rest
      | Comment =>
          if Ascii.eqb c nl then scan Code (S line) rest
          else scan Comment line rest
      | Short quote =>
          if Ascii.eqb c nl then Some (UnterminatedString line)
          else if Ascii.eqb c bs then
            match rest with
            | String c1 rest1 => scan (Short quote) (next_line c1 line) rest1
            | EmptyString => Some (UnterminatedString line)
            end
          else if Ascii.eqb c quote then scan Code line rest
          else scan (Short quote) line rest
      | Long quote =>
          if Ascii.eqb c bs then
            match rest with
            | String c1 rest1 => scan (Long quote) (next_line c1 line) rest1
            | EmptyString => Some (UnterminatedTripleQuoted line)
            end
          else if Ascii.eqb c quote then
            match rest with
            | String c1 (String c2 rest2) =>
                if Ascii.eqb c1 quote && Ascii.eqb c2 quote
                then scan Code line rest2
                else scan (Long quote) line rest
            | _ => scan (Long quote) line rest
            end
          else scan (Long quote) (next_line c line) rest
      end
  end.

Definition check (text : string) : option error := scan Code 1 text.

(** The character an escape sequence stands for. The sequences with
    digits or names (octal, [\x], [\N], [\u]) are not read; the script has
    none. An unknown escape stays as it is written. *)
Definition unescape (c : ascii) (value : string) : string :=
  if Ascii.eqb c bs then String bs value
  else if Ascii.eqb c dq then String dq value
  else if Ascii.eqb c sq then String sq value
  else if Ascii.eqb c "n" then String nl value
  else if Ascii.eqb c "t" then String "009" value
  else if Ascii.eqb c nl then value
  else String bs (String c value).

(** [literal quote text]: the value of the literal whose opening quote
    was just read, and the text after its closing quote. *)
Fixpoint literal (quote : ascii) (text : string) : option (string * string) :=
  match text with
  | EmptyString => None
  | String c rest =>
      if Ascii.eqb c nl then None
      else if Ascii.eqb c bs then
        match rest with
        | String c1 rest1 =>
            match literal quote rest1 with
            | Some (value, after) => Some (unescape c1 value, after)
            | None => None
            end
        | EmptyString => None
        end
      else if Ascii.eqb c quote then Some (EmptyString, rest)
      else
        match literal quote rest with
        | Some (value, after) => Some (String c value, after)
        | None => None
        end
  end.

Fixpoint lstrip (s : string) : string :=
  match s with
  | String c rest => if Ascii.eqb c " " then lstrip rest else s
  | EmptyString => s
  end.

Fixpoint drop_prefix (p s : string) {struct p} : option string :=
  match p, s with
  | EmptyString, _ => Some s
  | String a p', String b s' => if Ascii.eqb a b then drop_prefix p' s' else None
  | String _ _, EmptyString => None
  end.

(** What a line [print(<literal>)] or [print()] writes, a newline apart;
    [None] when the line is not such a call. *)
Definition print_call (line : string) : option string :=
  match drop_prefix "print(" (lstrip line) with
  | Some (String c rest) =>
      if Ascii.eqb c ")" then
        match rest with EmptyString => Some EmptyString | _ => None end
      else if is_quote c then
        match literal c rest with
        | Some (value, String c' EmptyString) =>
            if Ascii.eqb c' ")" then Some value else None
        | _ => None
        end
      else None
  | _ => None
  end.

End PyLex.

(** ** The argument parser of [main] (lines 27-30)

<<
    ap = argparse.ArgumentParser()
    ap.add_argument("--repo", default=".", help="Repo root")
    ap.add_argument("--out", default="devB_patch_v0.2.7.1_correctness_overlay.zip", help="Output zip name")
    args = ap.parse_args()
>>
    [parse_args] follows [argparse] of Python 3.11 for a parser with these
    two options and the [-h]/[--help] option that [ArgumentParser()] adds:
    the arguments are first classified ([_parse_optional]), then consumed
    from left to right ([consume_optional]). *)

Module Argparse.

(** A stored value is the argument string, except that [argparse] strips
    an argument that is exactly [--] and stores the empty list. *)
Inductive value : Type :=
| Str (s : string)
| EmptyList.

Record namespace : Type := { repo : value; out : value }.

Definition defaults : namespace :=
  {| repo := Str "."; out := Str "devB_patch_v0.2.7.1_correctness_overlay.zip" |}.

Inductive action : Type := Help | StoreRepo | StoreOut.

Definition option_strings : list (string * action) :=
  [("-h", Help); ("--help", Help); ("--repo", StoreRepo); ("--out", StoreOut)].

Fixpoint find_option (table : list (string * action)) (s : string) : option action :=
  match table with
  | [] => None
  | (os, act) :: table' => if String.eqb os s then Some act else find_option table' s
  end.

(** [s.split('=', 1)] when [s] has an [=]. *)
Fixpoint split_eq (s : string) : option (string * string) :=
  match s with
  | EmptyString => None
  | String c rest =>
      if Ascii.eqb c "=" then Some (EmptyString, rest)
      else match split_eq rest with
           | Some (name, arg) => Some (String c name, arg)
           | None => None
           end
  end.

(** [\d] of [re] matches the decimal digits of Unicode, not those of
    ASCII alone. An argument is the bytes that the process was given, read
    as UTF-8; a byte that does not belong to a character in UTF-8 becomes
    a lone surrogate in Python, which is no digit. *)

Definition continuation (c : ascii) : option N :=
  let n := N_of_ascii c in
  if ((128 <=? n) && (n <? 192))%N then Some (n - 128)%N else None.

(** The character in UTF-8 that the text starts with, and the text after
    it: the shortest encoding only, and no surrogate. *)
Definition decode1 (s : string) : option (N * string) :=
  match s with
  | EmptyString => None
  | String c0 r0 =>
      let n0 := N_of_ascii c0 in
      if (n0 <? 128)%N then Some (n0, r0)
      else if ((194 <=? n0) && (n0 <? 224))%N then
        match r0 with
        | String c1 r1 =>
            match continuation c1 with
            | Some n1 => Some (((n0 - 192) * 64 + n1)%N, r1)
            | None => None
            end
        | _ => None
        end
      else if ((224 <=? n0) && (n0 <? 240))%N then
        match r0 with
        | String c1 (String c2 r2) =>
            match continuation c1, continuation c2 with
            | Some n1, Some n2 =>
                let cp := ((n0 - 224) * 4096 + n1 * 64 + n2)%N in
                if ((2048 <=? cp) && negb ((55296 <=? cp) && (cp <? 57344)))%N
                then Some (cp, r2) else None
            | _, _ => None
            end
        | _ => None
        end
      else if ((240 <=? n0) && (n0 <? 245))%N then
        match r0 with
        | String c1 (String c2 (String c3 r3)) =>
            match continuation c1, continuation c2, continuation c3 with
            | Some n1, Some n2, Some n3 =>
                let cp := ((n0 - 240) * 262144 + n1 * 4096 + n2 * 64 + n3)%N in
                if ((65536 <=? cp) && (cp <? 1114112))%N then Some (cp, r3) else None
            | _, _, _ => None
            end
        | _ => None
        end
      else None
  end.

(** Where the decimal digits (category [Nd]) of Unicode 14.0 start, the
    version that Python 3.11 carries: ten digits follow each other from
    each of these code points, and fifty from U+1D7CE. *)
Definition digit_starts : list N :=
  [ 48; 1632; 1776; 1984; 2406; 2534; 2662; 2790; 2918; 3046; 3174; 3302; 3430;
    3558; 3664; 3792; 3872; 4160; 4240; 6112; 6160; 6470; 6608; 6784; 6800; 6992;
    7088; 7232; 7248; 42528; 43216; 43264; 43472; 43504; 43600; 44016; 65296;
    66720; 68912; 69734; 69872; 69942; 70096; 70384; 70736; 70864; 71248; 71360;
    71472; 71904; 72016; 72784; 73040; 73120; 92768; 92864; 93008; 120782;
    123200; 123632; 125264; 130032 ]%N.

Definition is_digit (cp : N) : bool :=
  existsb (fun a => (a <=? cp) && (cp <? a + (if a =? 120782 then 50 else 10)))%N
          digit_starts.

(** The text after the digit that it starts with. *)
Definition leading_digit (s : string) : option string :=
  match decode1 s with
  | Some (cp, rest) => if is_digit cp then Some rest else None
  | None => None
  end.

(** The text after its leading digits; a digit takes a byte at least, so
    the length of the text is fuel enough. *)
Fixpoint skip_digits_within (fuel : nat) (s : string) : string :=
  match fuel with
  | O => s
  | S fuel' =>
      match leading_digit s with
      | Some rest => skip_digits_within fuel' rest
      | None => s
      end
  end.

Definition skip_digits (s : string) : string := skip_digits_within (String.length s) s.

Definition nonempty (s : string) : bool :=
  match s with EmptyString => false | String _ _ => true end.

(** At the end of the text, or at a newline that ends it: where [$]
    matches. *)
Definition at_end (s : string) : bool :=
  match s with
  | EmptyString => true
  | String c EmptyString => Ascii.eqb c nl
  | _ => false
  end.

Definition starts_with_digit (s : string) : bool :=
  match leading_digit s with
  | Some _ => true
  | None => false
  end.

(** [_negative_number_matcher]: [^-\d+$|^-\d*\.\d+$]. *)
Definition negative_number (s : string) : bool :=
  match s with
  | String c rest =>
      Ascii.eqb c "-" &&
      ((starts_with_digit rest && at_end (skip_digits rest)) ||
       match skip_digits rest with
       | String d frac =>
           Ascii.eqb d "." && starts_with_digit frac && at_end (skip_digits frac)
       | EmptyString => false
       end)
  | EmptyString => false
  end.

Fixpoint has_space (s : string) : bool :=
  match s with
  | String c rest => Ascii.eqb c " " || has_space rest
  | EmptyString => false
  end.

(** An option recognised in an argument: the action ([None] for a flag the
    parser does not know), the option string and the argument given with
    it after [=] or glued to [-h]. *)
Definition option_tuple : Type := (option action * string * option string)%type.

(** [_get_option_tuples]: the options that the argument abbreviates. *)
Definition get_option_tuples (arg : string) : list option_tuple :=
  match arg with
  | String _ (String c1 after) =>
      if Ascii.eqb c1 "-" then
        let '(prefix, explicit) :=
          match split_eq arg with
          | Some (name, e) => (name, Some e)
          | None => (arg, None)
          end in
        flat_map (fun '(os, act) =>
                    if PyStr.startswith os prefix then [(Some act, os, explicit)] else [])
                 option_strings
      else
        let short := String "-" (String c1 EmptyString) in
        flat_map (fun '(os, act) =>
                    if String.eqb os short then [(Some act, os, Some after)]
                    else if PyStr.startswith os arg then [(Some act, os, None)]
                    else [])
                 option_strings
  | _ => []
  end.

Inductive parse_result (A : Type) : Type :=
| Parsed (a : A)
| HelpExit                      (* help on standard output, status 0 *)
| UsageError (message : string). (* usage on standard error, status 2 *)
Arguments Parsed {A} a.
Arguments HelpExit {A}.
Arguments UsageError {A} message.

(** The option strings of the matches, as the error message lists them. *)
Definition could_match (matches : list option_tuple) : string :=
  String.concat ", " (map (fun '(_, os, _) => os) matches).

(** [_parse_optional]: [Parsed None] for a positional argument. *)
Definition parse_optional (arg : string) : parse_result (option option_tuple) :=
  match arg with
  | EmptyString => Parsed None
  | String c0 after =>
      if negb (Ascii.eqb c0 "-") then Parsed None
      else
        match find_option option_strings arg with
        | Some act => Parsed (Some (Some act, arg, None))
        | None =>
            if negb (nonempty after) then Parsed None
            else
              let named :=
                match split_eq arg with
                | Some (name, e) =>
                    match find_option option_strings name with
                    | Some act => Some (Some act, name, Some e)
                    | None => None
                    end
                | None => None
                end in
              match named with
              | Some t => Parsed (Some t)
              | None =>
                  match get_option_tuples arg with
                  | (_ :: _ :: _) as matches =>
                      UsageError ("ambiguous option: " +:+ arg +:+ " could match "
                                  +:+ could_match matches)
                  | [t] => Parsed (Some t)
                  | [] =>
                      if negative_number arg then Parsed None
                      else if has_space arg then Parsed None
                      else Parsed (Some (None, arg, None))
                  end
              end
        end
  end.

(** The pattern of the command line: [A] an argument, [Dashes] the first
    [--], [O] an option. Everything after the first [--] is an argument. *)
Inductive pattern : Type :=
| A
| Dashes
| O (t : option_tuple).

Fixpoint classify (args : list string) : parse_result (list (string * pattern)) :=
  match args with
  | [] => Parsed []
  | arg :: rest =>
      if String.eqb arg "--" then Parsed ((arg, Dashes) :: map (fun a => (a, A)) rest)
      else
        match parse_optional arg with
        | UsageError m => UsageError m
        | HelpExit => HelpExit
        | Parsed cls =>
            match classify rest with
            | Parsed rest' =>
                Parsed ((arg, match cls with Some t => O t | None => A end) :: rest')
            | r => r
            end
        end
  end.

(** [_get_values] for one argument string: a [--] is removed first. *)
Definition get_value (arg : string) : value :=
  if String.eqb arg "--" then EmptyList else Str arg.

Definition store (act : action) (v : value) (ns : namespace) : namespace :=
  match act with
  | StoreRepo => {| repo := v; out := out ns |}
  | StoreOut => {| repo := repo ns; out := v |}
  | Help => ns
  end.

Definition name_of (act : action) : string :=
  match act with
  | Help => "-h/--help"
  | StoreRepo => "--repo"
  | StoreOut => "--out"
  end.

(** The tail of [-hXYZ]: every further letter has to be the one short
    option there is, [h]. *)
Fixpoint short_cluster (tail : string) : bool :=
  match tail with
  | EmptyString => true
  | String c rest => Ascii.eqb c "h" && short_cluster rest
  end.

(** What is left of the tail where the first letter other than [h] is
    met: the explicit argument that the error message shows. *)
Fixpoint after_h (tail : string) : string :=
  match tail with
  | String c rest => if Ascii.eqb c "h" then after_h rest else tail
  | EmptyString => tail
  end.

(** [repr] of a [str], which [%r] puts in a message: the text between
    single quotes, or between double quotes when it holds a single quote
    and no double one; the quote in use and the backslash get a backslash
    in front, and a control character its escape. The bytes of a
    character outside ASCII are kept, as [repr] keeps the character when
    it is printable; the [\x], [\u] and [\U] escapes that it writes for
    the others are not modelled. *)
Fixpoint has_char (c : ascii) (s : string) : bool :=
  match s with
  | String d rest => Ascii.eqb c d || has_char c rest
  | EmptyString => false
  end.

Definition hex_digit (n : nat) : ascii :=
  ascii_of_nat (if (n <? 10)%nat then 48 + n else 87 + n).

Definition repr_char (quote c : ascii) : string :=
  let n := nat_of_ascii c in
  if Ascii.eqb c quote || Ascii.eqb c bs then String bs (String c EmptyString)
  else if (n =? 9)%nat then String bs "t"
  else if (n =? 10)%nat then String bs "n"
  else if (n =? 13)%nat then String bs "r"
  else if ((n <? 32) || (n =? 127))%nat then
    String bs (String "x" (String (hex_digit (n / 16)) (String (hex_digit (n mod 16)) EmptyString)))
  else String c EmptyString.

Fixpoint repr_body (quote : ascii) (s : string) : string :=
  match s with
  | String c rest => repr_char quote c +:+ repr_body quote rest
  | EmptyString => EmptyString
  end.

Definition repr (s : string) : string :=
  let quote := if has_char sq s && negb (has_char dq s) then dq else sq in
  String quote (repr_body quote s +:+ String quote EmptyString).

(** The loop of [_parse_known_args]; [extras] counts the arguments no
    action took. There is no positional action, so every [A] or [Dashes]
    that no option takes is an extra. *)
Fixpoint consume (items : list (string * pattern)) (ns : namespace) (extras : list string)
  : parse_result namespace :=
  match items with
  | [] =>
      match extras with
      | [] => Parsed ns
      | _ => UsageError ("unrecognized arguments: " +:+ String.concat " " extras)
      end
  | (arg, A) :: rest | (arg, Dashes) :: rest => consume rest ns (extras ++ [arg])
  | (arg, O (None, _, _)) :: rest => consume rest ns (extras ++ [arg])
  | (_, O (Some Help, os, explicit)) :: rest =>
      match explicit with
      | None => HelpExit
      | Some e =>
          if String.eqb os "-h" && nonempty e && short_cluster e then HelpExit
          else UsageError ("argument -h/--help: ignored explicit argument "
                           +:+ repr (if String.eqb os "-h" then after_h e else e))
      end
  | (_, O (Some act, _, Some e)) :: rest => consume rest (store act (get_value e) ns) extras
  | (_, O (Some act, _, None)) :: rest =>
      match rest with
      | (v, A) :: rest' => consume rest' (store act (get_value v) ns) extras
      | _ => UsageError ("argument " +:+ name_of act +:+ ": expected one argument")
      end
  end.

Definition parse_args (argv : list string) : parse_result namespace :=
  match classify argv with
  | Parsed items => consume items defaults []
  | HelpExit => HelpExit
  | UsageError m => UsageError m
  end.

(** The help text, as Python 3.10 and later print it. *)
Definition help_text : list string :=
  [ "usage: make_devB_patch_v0271_overlay.py [-h] [--repo REPO] [--out OUT]";
    blank;
    "options:";
    "  -h, --help   show this help message and exit";
    "  --repo REPO  Repo root";
    "  --out OUT    Output zip name" ].

End Argparse.

(** ** [main] (lines 26-53) and the script as a process *)

(** What a process leaves on standard error. *)
Inductive diagnostic : Type :=
| SyntaxErrorReport (e : PyLex.error)   (* the file was rejected by the compiler *)
| Traceback (e : exn)                   (* an exception nobody caught *)
| Usage (message : string).             (* the usage text of [argparse] and its error *)

(** Standard output is kept as the list of its lines. *)
Record outcome : Type := {
  stdout : list string;
  stderr : list diagnostic;
  status : nat
}.

(** [Path(args.repo)]: a path is made of a string; [None] is the
    [TypeError] that [Path] raises when it is given a list. *)
Definition Path (v : Argparse.value) : option string :=
  match v with
  | Argparse.Str s => Some s
  | Argparse.EmptyList => None
  end.

(** [path.resolve()]: the path made absolute from the working directory.
    The removal of [.] and [..] components is left out; [main] does not use
    the result. This is [resolve] where it returns: in a file system
    without symbolic links and from a working directory that exists. On a
    loop of symbolic links [Path.resolve] raises [RuntimeError], and for a
    relative path in a working directory that was removed it raises
    [FileNotFoundError]; neither is in the model, and what is proved of
    [main] is proved where line 32 returns. *)
Definition resolve (cwd p : string) : string :=
  if PyStr.startswith p "/" then p else cwd +:+ "/" +:+ p.

(** [main], given the values [printed] that its twelve [print] calls are
    passed:
<<
    args = ap.parse_args()
    repo = Path(args.repo).resolve()
    print(...)            # twelve times
>> *)
Definition main (printed : list string) (cwd : string) (argv : list string) : outcome :=
  match Argparse.parse_args argv with
  | Argparse.UsageError m => {| stdout := []; stderr := [Usage m]; status := 2 |}
  | Argparse.HelpExit => {| stdout := Argparse.help_text; stderr := []; status := 0 |}
  | Argparse.Parsed args =>
      match Path (Argparse.repo args) with
      | None => {| stdout := []; stderr := [Traceback TypeError]; status := 1 |}
      | Some p =>
          let repo := resolve cwd p in
          {| stdout := printed; stderr := []; status := 0 |}
      end
  end.

(** The values of the [print] lines, when every line is a [print] call. *)
Fixpoint print_values (prints : list string) : option (list string) :=
  match prints with
  | [] => Some []
  | line :: rest =>
      match PyLex.print_call line, print_values rest with
      | Some v, Some vs => Some (v :: vs)
      | _, _ => None
      end
  end.

(** [python3 <module> argv...]: the module is compiled as a whole, and only
    a module that compiles is run; its last lines call [main]. *)
Definition python (prints : list string) (cwd : string) (argv : list string) : outcome :=
  match PyLex.check (module_text prints) with
  | Some e => {| stdout := []; stderr := [SyntaxErrorReport e]; status := 1 |}
  | None =>
      match print_values prints with
      | Some printed => main printed cwd argv
      | None => {| stdout := []; stderr := [SyntaxErrorReport PyLex.InvalidSyntax]; status := 1 |}
      end
  end.

(** The script of the repository, run in directory [cwd] with arguments
    [argv]. *)
Definition run (cwd : string) (argv : list string) : outcome :=
  python print_lines cwd argv.

(** ** Reading the printed text

    How a reader, or a shell, takes the printed command apart. *)

Module Output.

Fixpoint first_nonempty (out : list string) : option string :=
  match out with
  | [] => None
  | line :: rest =>
      match line with
      | EmptyString => first_nonempty rest
      | _ => Some line
      end
  end.

Definition ends_with_blank_line (out : list string) : bool :=
  match last out with
  | Some EmptyString => true
  | _ => false
  end.

Fixpoint take_until_blank (out : list string) : list string :=
  match out with
  | [] => []
  | line :: rest =>
      match line with
      | EmptyString => []
      | _ => line :: take_until_blank rest
      end
  end.

(** The command block: from the line that starts the [zip] command to the
    next empty line. *)
Fixpoint command_block (out : list string) : list string :=
  match out with
  | [] => []
  | line :: rest =>
      if PyStr.startswith line "zip " then line :: take_until_blank rest
      else command_block rest
  end.

(** A backslash that ends a line continues the command on the next. *)
Fixpoint strip_continuation (line : string) : string :=
  match line with
  | EmptyString => EmptyString
  | String c EmptyString => if Ascii.eqb c bs then EmptyString else line
  | String c rest => String c (strip_continuation rest)
  end.

Fixpoint words_from (cur : string) (s : string) : list string :=
  match s with
  | EmptyString => match cur with EmptyString => [] | _ => [cur] end
  | String c rest =>
      if Ascii.eqb c " "
      then match cur with EmptyString => [] | _ => [cur] end ++ words_from EmptyString rest
      else words_from (cur +:+ String c EmptyString) rest
  end.

Definition command_words (out : list string) : list string :=
  flat_map (fun line => words_from EmptyString (strip_continuation line)) (command_block out).

(** In [zip -r ARCHIVE FILE...], the archive and the files. *)
Definition archive_name (out : list string) : option string := command_words out !! 2%nat.

Definition file_list (out : list string) : list string := drop 3 (command_words out).

End Output.

(** The seven files of the overlay, in the order of the script. *)
Definition touched_files : list string :=
  [ "src/sim/turn.ts";
    "src/sim/types.ts";
    "src/sim/peopleFirst.ts";
    "src/sim/court.ts";
    "src/App.tsx";
    "tests/v0271_hotfix_p0_correctness.test.ts";
    "DEV_NOTES.md" ].

Definition announcement : string :=
  "This patchpack includes PATCH_INSTRUCTIONS.md for applying edits.".

(** ** The text the lines were meant to have

    Not the text of the file: lines 45 to 51 with the backslash that ends
    the printed line written as the escape sequence of a backslash. It is
    used only to show what is lost by the way the file writes them. *)
Definition escaped_print_lines : list string :=
  [ (* 42 *) q ["    print("; "This patchpack includes PATCH_INSTRUCTIONS.md for applying edits."; ")"];
    (* 43 *) q ["    print("; "After applying, run this command from repo root to produce the overlay zip:"; ")"];
    (* 44 *) "    print()";
    (* 45 *) q ["    print("; "zip -r devB_patch_v0.2.7.1_correctness_overlay.zip \\"; ")"];
    (* 46 *) q ["    print("; "  src/sim/turn.ts \\"; ")"];
    (* 47 *) q ["    print("; "  src/sim/types.ts \\"; ")"];
    (* 48 *) q ["    print("; "  src/sim/peopleFirst.ts \\"; ")"];
    (* 49 *) q ["    print("; "  src/sim/court.ts \\"; ")"];
    (* 50 *) q ["    print("; "  src/App.tsx \\"; ")"];
    (* 51 *) q ["    print("; "  tests/v0271_hotfix_p0_correctness.test.ts \\"; ")"];
    (* 52 *) q ["    print("; "  DEV_NOTES.md"; ")"];
    (* 53 *) "    print()" ].

(** The outcome of a script that the compiler rejects at line 45. *)
Definition rejected : outcome :=
  {| stdout := [];
     stderr := [SyntaxErrorReport (PyLex.UnterminatedString 45)];
     status := 1 |}.

(** What the escaped text prints. *)
Definition intended_stdout : list string :=
  [ announcement;
    "After applying, run this command from repo root to produce the overlay zip:";
    blank;
    "zip -r devB_patch_v0.2.7.1_correctness_overlay.zip \";
    "  src/sim/turn.ts \";
    "  src/sim/types.ts \";
    "  src/sim/peopleFirst.ts \";
    "  src/sim/court.ts \";
    "  src/App.tsx \";
    "  tests/v0271_hotfix_p0_correctness.test.ts \";
    "  DEV_NOTES.md";
    blank ].


(** A file system is well formed when every entry can be reached: the
    path above it resolves to a directory. *)
Definition well_formed (t : gmap (list string) FS.node) : Prop :=
  ∀ c par n, t !! (c :: par) = Some n → FS.stat t par = FS.Found FS.Dir.

(** Whether a stored value is a string. *)
Definition is_str (v : Argparse.value) : bool :=
  match v with
  | Argparse.Str _ => true
  | Argparse.EmptyList => false
  end.

(** Two results of [parse_args] between which [main] makes no difference:
    the same exit, or two namespaces whose repository root is of the same
    kind. *)
Definition alike (r1 r2 : Argparse.parse_result Argparse.namespace) : Prop :=
  match r1, r2 with
  | Argparse.Parsed a, Argparse.Parsed b =>
      is_str (Argparse.repo a) = is_str (Argparse.repo b)
  | Argparse.HelpExit, Argparse.HelpExit => True
  | Argparse.UsageError m1, Argparse.UsageError m2 => m1 = m2
  | _, _ => False
  end.

(** Two results of [parse_args] that differ at most in the repository
    root, which in the first of them may be [v]: the same exit, or two
    namespaces with the same archive name. *)
Definition differ_in_repo (v : Argparse.value)
    (r1 r2 : Argparse.parse_result Argparse.namespace) : Prop :=
  match r1, r2 with
  | Argparse.Parsed a, Argparse.Parsed b =>
      Argparse.out a = Argparse.out b
      ∧ (Argparse.repo a = Argparse.repo b ∨ Argparse.repo a = v)
  | Argparse.HelpExit, Argparse.HelpExit => True
  | Argparse.UsageError m1, Argparse.UsageError m2 => m1 = m2
  | _, _ => False
  end.

(** * Properties *)

Section PyStrFacts.

Import PyStr.

Lemma startswith_app (s p : string) :
  startswith s p = true ↔ ∃ after, s = p +:+ after.
Proof.
  revert s; induction p as [|a p IH]; intros s; simpl.
  - split; [intros _; by exists s | done].
  - destruct s as [|b s].
    + split; [done | intros [after H]; discriminate].
    + destruct (Ascii.eqb_spec a b) as [->|Hne].
      * rewrite IH. split; intros [after H]; exists after.
        -- by rewrite H.
        -- by injection H.
      * split; [done | intros [after H]; injection H; congruence].
Qed.

Lemma contains_occurs (haystack needle : string) :
  contains haystack needle = true ↔ occurs_in needle haystack.
Proof.
  unfold occurs_in.
  induction haystack as [|c h IH]; simpl.
  - rewrite orb_false_r, startswith_app. split.
    + intros [after H]. by exists EmptyString, after.
    + intros [[|b before] [after H]].
      * by exists after.
      * discriminate.
  - rewrite orb_true_iff, startswith_app, IH. split.
    + intros [[after H] | (before & after & H)].
      * by exists EmptyString, after.
      * exists (String c before), after. simpl. by rewrite H.
    + intros [[|b before] [after H]].
      * left. by exists after.
      * right. simpl in H. injection H as -> H. by exists before, after.
Qed.

Lemma contains_false_not_occurs (haystack needle : string) :
  contains haystack needle = false ↔ ¬ occurs_in needle haystack.
Proof.
  rewrite <- contains_occurs. destruct (contains haystack needle); split; try done.
Qed.

End PyStrFacts.


(** ** The helper [must_find] *)

Section MustFindFacts.

Import PyStr.

Lemma append_cons (c : ascii) (s t : string) : String c s +:+ t = String c (s +:+ t).
Proof. reflexivity. Qed.

Lemma append_empty_r (s : string) : s +:+ EmptyString = s.
Proof. induction s as [|c s IH]; [done | by rewrite append_cons, IH]. Qed.

Lemma append_assoc (a b c : string) : (a +:+ b) +:+ c = a +:+ (b +:+ c).
Proof. induction a as [|x a IH]; [done | by rewrite !append_cons, IH]. Qed.

Lemma anchor_message_names_label (label needle : string) :
  occurs_in label (anchor_message label needle).
Proof.
  exists "[", ("] anchor not found:" +:+ String nl needle). reflexivity.
Qed.

Lemma anchor_message_names_needle (label needle : string) :
  occurs_in needle (anchor_message label needle).
Proof.
  exists ("[" +:+ label +:+ "] anchor not found:" +:+ String nl EmptyString), EmptyString.
  unfold anchor_message. rewrite append_empty_r, !append_assoc. reflexivity.
Qed.

(** C8: whenever the needle does not occur in the haystack, [must_find]
    raises a [RuntimeError] whose message is the label in brackets, the
    words [anchor not found:], a newline and the needle; the message so
    names both the label and the missing needle text. *)
Theorem must_find_missing (haystack needle label : string) :
  ¬ occurs_in needle haystack →
  ∃ msg : string,
    must_find haystack needle label = Raise (RuntimeError msg)
    ∧ msg = "[" +:+ label +:+ "] anchor not found:" +:+ String nl needle
    ∧ occurs_in label msg
    ∧ occurs_in needle msg.
Proof.
  intros Habsent. apply contains_false_not_occurs in Habsent.
  exists (anchor_message label needle). unfold must_find. rewrite Habsent. simpl.
  split; [reflexivity|]. split; [reflexivity|].
  split; [apply anchor_message_names_label | apply anchor_message_names_needle].
Qed.

Lemma must_find_missing_witness :
  ¬ occurs_in "export function" "import x" ∧
  ∃ msg : string,
    must_find "import x" "export function" "turn.ts" = Raise (RuntimeError msg)
    ∧ msg = "[" +:+ "turn.ts" +:+ "] anchor not found:" +:+ String nl "export function"
    ∧ occurs_in "turn.ts" msg
    ∧ occurs_in "export function" msg.
Proof.
  assert (H : ¬ occurs_in "export function" "import x").
  { apply contains_false_not_occurs. reflexivity. }
  split; [exact H | exact (must_find_missing "import x" "export function" "turn.ts" H)].
Defined.

(** C10: whenever the needle occurs in the haystack, [must_find] returns
    normally: it raises nothing, and its result carries nothing but the
    unit value, so there is no other effect. *)
Theorem must_find_present (haystack needle label : string) :
  occurs_in needle haystack →
  must_find haystack needle label = Ok tt.
Proof.
  intros Hin. apply contains_occurs in Hin.
  unfold must_find. by rewrite Hin.
Qed.

Lemma must_find_present_witness :
  occurs_in "function" "export function step()" ∧
  must_find "export function step()" "function" "turn.ts" = Ok tt.
Proof.
  assert (H : occurs_in "function" "export function step()").
  { exists "export ", " step()". reflexivity. }
  split; [exact H | exact (must_find_present "export function step()" "function" "turn.ts" H)].
Defined.

End MustFindFacts.

(** ** The helper [write] *)

Section WriteFacts.

Import FS.

Implicit Types (t : gmap (list string) node) (p q : list string).

(** *** Paths *)

Lemma ancestors_shorter p q : q ∈ ancestors p → length q < length p.
Proof.
  induction p as [|c par IH]; simpl; intros Hq.
  - by apply elem_of_nil in Hq.
  - apply elem_of_cons in Hq as [->|Hq]; [lia | specialize (IH Hq); lia].
Qed.

Lemma not_own_ancestor p : p ∉ ancestors p.
Proof. intros H. apply ancestors_shorter in H. lia. Qed.

Lemma child_not_ancestor c par : c :: par ∉ par :: ancestors par.
Proof.
  intros H. apply elem_of_cons in H as [H|H].
  - apply (f_equal length) in H. simpl in H. lia.
  - apply ancestors_shorter in H. simpl in H. lia.
Qed.

Lemma precheck_nil : precheck [] = Accepted.
Proof. reflexivity. Qed.

Lemma precheck_accepted p :
  precheck p = Accepted ↔ existsb has_nul p = false ∧ (path_bytes p + 1 < PATH_MAX)%N.
Proof.
  unfold precheck. destruct (existsb has_nul p); [by split; [|intros []]|].
  destruct (N.ltb_spec PATH_MAX (path_bytes p)); [split; [done | intros [_ ?]; lia]|].
  destruct (N.leb_spec PATH_MAX (path_bytes p + 1)); [split; [done | intros [_ ?]; lia]|].
  split; [intros _; split; [done | lia] | done].
Qed.

Lemma precheck_tail c par : precheck (c :: par) = Accepted → precheck par = Accepted.
Proof.
  rewrite !precheck_accepted. simpl. intros [Hnul Hlen].
  apply orb_false_iff in Hnul as [_ Hnul]. split; [done | unfold name_bytes in *; lia].
Qed.

Lemma walkable_cons c par :
  walkable (c :: par) = true →
  short_name c = true ∧ walkable par = true ∧ precheck (c :: par) = Accepted.
Proof.
  unfold walkable. simpl. intros H.
  rewrite !andb_true_iff, !negb_true_iff, orb_false_iff in H.
  destruct H as [[[Hc Hall] [Hn Hnul]] Hlen]. apply N.ltb_lt in Hlen.
  split; [done|]. split.
  - rewrite Hall, Hnul. simpl. apply N.ltb_lt. unfold name_bytes in *. lia.
  - apply precheck_accepted. simpl. by rewrite Hn, Hnul.
Qed.

Lemma walkable_precheck p : walkable p = true → precheck p = Accepted.
Proof.
  destruct p as [|c par]; [done|]. intros H. by apply walkable_cons in H as (_ & _ & H).
Qed.

Lemma plain_short c : plain_name c = true → short_name c = true ∧ has_nul c = false.
Proof.
  unfold plain_name, short_name. intros H.
  rewrite !andb_true_iff, !negb_true_iff in H.
  destruct H as [[[[[_ _] Hdd] _] Hnul] Hlen]. apply N.leb_le in Hlen.
  split; [|done]. rewrite Hdd. simpl. apply negb_true_iff, N.ltb_ge. done.
Qed.

Lemma ordinary_walkable p : ordinary p = true → walkable p = true.
Proof.
  unfold ordinary, walkable. intros H. apply andb_true_iff in H as [Hall Hlen].
  rewrite Hlen, andb_true_r. clear Hlen.
  induction p as [|c par IH]; [done|]. simpl in *.
  apply andb_true_iff in Hall as [Hc Hall]. apply plain_short in Hc as [Hs Hn].
  specialize (IH Hall). apply andb_true_iff in IH as [IH1 IH2].
  apply negb_true_iff in IH2. by rewrite Hs, Hn, IH1, IH2.
Qed.

(** *** Resolution *)

Lemma child_short t c par :
  short_name c = true →
  child t c par = match t !! (c :: par) with Some n => Found n | None => ENOENT end.
Proof.
  unfold short_name, child. intros H.
  rewrite andb_true_iff, !negb_true_iff in H. destruct H as [-> ->]. done.
Qed.

Lemma child_reached t c par :
  (∃ n, child t c par = Found n) ∨ child t c par = ENOENT → short_name c = true.
Proof.
  unfold child, short_name.
  destruct (String.eqb c ".."); [by intros [[n H]|H]|].
  destruct (NAME_MAX <? name_bytes c)%N; [by intros [[n H]|H] | done].
Qed.

Lemma child_found t c par n : child t c par = Found n → t !! (c :: par) = Some n.
Proof.
  intros H. pose proof (child_reached t c par (or_introl (ex_intro _ n H))) as Hs.
  rewrite (child_short _ _ _ Hs) in H. destruct (t !! (c :: par)); congruence.
Qed.

Lemma child_insert_ne t p n c par :
  c :: par ≠ p → child (<[p := n]> t) c par = child t c par.
Proof. intros H. unfold child. by rewrite lookup_insert_ne. Qed.

Lemma walk_found t c par n :
  walk t (c :: par) = Found n → walk t par = Found Dir ∧ child t c par = Found n.
Proof. simpl. by destruct (walk t par) as [[|s]| | | | |]. Qed.

Lemma stat_walk t p n : stat t p = Found n → precheck p = Accepted ∧ walk t p = Found n.
Proof. unfold stat. by destruct (precheck p). Qed.

Lemma walk_stat t p : precheck p = Accepted → stat t p = walk t p.
Proof. unfold stat. by intros ->. Qed.

Lemma stat_found t c par n :
  stat t (c :: par) = Found n → t !! (c :: par) = Some n ∧ stat t par = Found Dir.
Proof.
  intros H. apply stat_walk in H as [Hpre H]. apply walk_found in H as [Hpar Hc].
  split; [by apply child_found|]. by rewrite walk_stat; [|apply (precheck_tail c)].
Qed.

Lemma stat_found_entry t p n : stat t p = Found n → entry t p = Some n.
Proof.
  destruct p as [|c par]; [by intros [= <-] | intros H; by apply stat_found in H as [H _]].
Qed.




(** Writing an entry changes the resolution of no path that does not go
    through it. *)
Lemma walk_insert_other t p n q :
  q ≠ p → p ∉ ancestors q → walk (<[p := n]> t) q = walk t q.
Proof.
  induction q as [|c par IH]; simpl; [done|]. intros Hne Hanc.
  rewrite IH.
  - by rewrite child_insert_ne.
  - intros ->. apply Hanc, list_elem_of_here.
  - intros H. by apply Hanc, list_elem_of_further.
Qed.

Lemma stat_insert_other t p n q :
  q ≠ p → p ∉ ancestors q → stat (<[p := n]> t) q = stat t q.
Proof. intros H1 H2. unfold stat. by rewrite walk_insert_other. Qed.

Lemma walk_insert_parent t c par n :
  walk (<[c :: par := n]> t) par = walk t par.
Proof.
  apply walk_insert_other.
  - intros H. apply (f_equal length) in H. simpl in H. lia.
  - intros H. apply ancestors_shorter in H. simpl in H. lia.
Qed.

Lemma stat_insert_child t c par n :
  precheck (c :: par) = Accepted →
  short_name c = true →
  walk t par = Found Dir →
  stat (<[c :: par := n]> t) (c :: par) = Found n.
Proof.
  intros Hpre Hc Hpar. rewrite walk_stat by done. simpl.
  rewrite walk_insert_parent, Hpar, (child_short _ _ _ Hc). by rewrite lookup_insert_eq.
Qed.

Lemma stat_found_ancestors t p n :
  stat t p = Found n → ∀ q, q ∈ ancestors p → stat t q = Found Dir.
Proof.
  revert n. induction p as [|c par IH]; intros n Hp q Hq.
  - by apply elem_of_nil in Hq.
  - apply stat_found in Hp as [_ Hp]. simpl in Hq.
    apply elem_of_cons in Hq as [->|Hq]; [done | by apply (IH Dir)].
Qed.

(** *** [mkdir] *)

Lemma os_mkdir_ok t p t' :
  os_mkdir t p = Ok t' →
  ∃ c par, p = c :: par ∧ precheck p = Accepted ∧ short_name c = true
           ∧ walk t par = Found Dir ∧ t !! p = None ∧ t' = <[p := Dir]> t.
Proof.
  unfold os_mkdir, checked. destruct (precheck p) eqn:Hpre; try done.
  destruct p as [|c par]; [done|].
  destruct (walk t par) as [[|s]| | | | |] eqn:Hpar; try done.
  destruct (child t c par) as [n| | | | |] eqn:Hc; try done. intros [= <-].
  pose proof (child_reached t c par (or_intror Hc)) as Hs.
  rewrite (child_short _ _ _ Hs) in Hc.
  exists c, par. repeat split; try done. by destruct (t !! (c :: par)).
Qed.

(** [os.mkdir] where the parent is a directory and the name can be looked
    up. *)
Lemma os_mkdir_in_dir t c par :
  precheck (c :: par) = Accepted →
  short_name c = true →
  walk t par = Found Dir →
  os_mkdir t (c :: par) =
    match t !! (c :: par) with
    | Some _ => Raise FileExistsError
    | None => Ok (<[c :: par := Dir]> t)
    end.
Proof.
  intros Hpre Hc Hpar. unfold os_mkdir, checked. rewrite Hpre, Hpar, (child_short _ _ _ Hc).
  by destruct (t !! (c :: par)).
Qed.

Lemma mkdir_exist_ok_cases t p t' :
  mkdir_exist_ok t p = Ok t' →
  (t' = t ∧ is_dir t p = true)
  ∨ (∃ c par, p = c :: par ∧ precheck p = Accepted ∧ short_name c = true
              ∧ walk t par = Found Dir ∧ t !! p = None ∧ t' = <[p := Dir]> t).
Proof.
  unfold mkdir_exist_ok. destruct (os_mkdir t p) as [t2|e|] eqn:Hos; [| |done].
  - intros [= <-]. right. by apply os_mkdir_ok.
  - destruct (is_dir t p); [|by destruct e].
    destruct e; try done; intros [= <-]; by left.
Qed.

Lemma is_dir_stat t p : is_dir t p = true → stat t p = Found Dir.
Proof. unfold is_dir. by destruct (stat t p) as [[|s]| | | | |]. Qed.

Lemma is_dir_entry t p : is_dir t p = true → entry t p = Some Dir.
Proof. intros H. by apply stat_found_entry, is_dir_stat. Qed.

Lemma entry_insert_ne t p n q : q ≠ p → entry (<[p := n]> t) q = entry t q.
Proof. destruct q; [done | intros H; simpl; by rewrite lookup_insert_ne]. Qed.


(** What a successful [mkdir(parents=True, exist_ok=True)] did: the path
    is a directory, and nothing was touched but places at the path or
    above it where nothing was, which are directories now. *)
Lemma mkdir_parents_inv p :
  ∀ t t',
    mkdir_parents t p = Ok t' →
    stat t' p = Found Dir
    ∧ ∀ q, t' !! q = t !! q
           ∨ (q ∈ p :: ancestors p ∧ q ≠ [] ∧ t !! q = None ∧ t' !! q = Some Dir).
Proof.
  induction p as [|c par IH]; intros t t' Hmk.
  - simpl in Hmk. injection Hmk as <-. split; [done | by left].
  - simpl in Hmk. destruct (os_mkdir t (c :: par)) as [t2|e|] eqn:Hos; [| |done].
    + injection Hmk as <-.
      apply os_mkdir_ok in Hos as (c0 & par0 & [= <- <-] & Hpre & Hc & Hpar & Hnone & ->).
      split; [by apply stat_insert_child|].
      intros q. destruct (decide (q = c :: par)) as [->|Hne].
      * right. split; [apply list_elem_of_here|]. split; [done|]. split; [done|].
        by rewrite lookup_insert_eq.
      * left. by rewrite lookup_insert_ne.
    + assert (Hcatch : is_OSError e && is_dir t (c :: par) = true → Hmk = Hmk →
                       t' = t → stat t' (c :: par) = Found Dir) by
        (intros H _ ->; apply andb_true_iff in H as [_ H]; by apply is_dir_stat).
      destruct e; try (destruct (is_OSError _ && is_dir t (c :: par)) eqn:Hd;
                       [injection Hmk as <-; split; [by apply Hcatch | by left] | done]).
      destruct (mkdir_parents t par) as [t1| |] eqn:Hmk1; simpl in Hmk; try done.
      destruct (IH t t1 Hmk1) as [Hdir1 Hcases].
      destruct (mkdir_exist_ok_cases t1 (c :: par) t' Hmk)
        as [[-> Hd] | (c0 & par0 & [= <- <-] & Hpre & Hc & Hpar & Hnone & ->)].
      * split; [by apply is_dir_stat|]. intros q.
        destruct (Hcases q) as [H | (Hq & Hne & Hn & Hd')]; [by left|].
        right. split; [by apply list_elem_of_further | done].
      * split; [by apply stat_insert_child|]. intros q.
        destruct (decide (q = c :: par)) as [->|Hne].
        -- destruct (Hcases (c :: par)) as [H | (Hq & _)].
           ++ right. split; [apply list_elem_of_here|]. split; [done|].
              split; [by rewrite <- H | by rewrite lookup_insert_eq].
           ++ by apply child_not_ancestor in Hq.
        -- rewrite lookup_insert_ne; [|done].
           destruct (Hcases q) as [H | (Hq & Hne' & Hn & Hd')]; [by left|].
           right. split; [by apply list_elem_of_further | done].
Qed.

Lemma mkdir_parents_keeps p t t' :
  mkdir_parents t p = Ok t' → ∀ q n, entry t q = Some n → entry t' q = Some n.
Proof.
  intros Hmk q n Hq. destruct q as [|x q]; [done|]. simpl in *.
  destruct (proj2 (mkdir_parents_inv p t t' Hmk) (x :: q)) as [H | (_ & _ & H & _)];
    congruence.
Qed.

(** A directory that exists is left alone. *)
Lemma mkdir_parents_same t p : stat t p = Found Dir → mkdir_parents t p = Ok t.
Proof.
  intros Hp. destruct p as [|c par]; [reflexivity|].
  pose proof Hp as Hp'. apply stat_walk in Hp' as [Hpre Hw].
  apply walk_found in Hw as [Hpar Hc].
  pose proof (child_reached t c par (or_introl (ex_intro _ _ Hc))) as Hs.
  simpl. rewrite (os_mkdir_in_dir _ _ _ Hpre Hs Hpar), (child_found _ _ _ _ Hc).
  unfold is_dir. by rewrite Hp.
Qed.


(** *** [write_text] and [write] *)

(** [write_text] in an existing directory, at a place that is not a
    directory. *)
Lemma write_text_spec t c par content :
  precheck (c :: par) = Accepted →
  short_name c = true →
  walk t par = Found Dir →
  t !! (c :: par) ≠ Some Dir →
  write_text t (c :: par) content =
    if encodable content then Ok (<[c :: par := File content]> t)
    else Raise UnicodeEncodeError.
Proof.
  intros Hpre Hc Hpar Hdir. unfold write_text, checked.
  rewrite Hpre, Hpar, (child_short _ _ _ Hc).
  destruct (t !! (c :: par)) as [[|s]|]; done.
Qed.

(** What a successful [write] did. *)
Lemma write_ok_inv t p content t' :
  write t p content = Ok t' →
  ∃ c par t1,
    p = c :: par
    ∧ precheck p = Accepted
    ∧ short_name c = true
    ∧ encodable content = true
    ∧ mkdir_parents t par = Ok t1
    ∧ walk t1 par = Found Dir
    ∧ t1 !! p ≠ Some Dir
    ∧ t' = <[p := File content]> t1.
Proof.
  unfold write. destruct (mkdir_parents t (parent p)) as [t1|e|] eqn:Hmk; simpl; [| done | done].
  unfold write_text, checked. destruct (precheck p) eqn:Hpre; try done.
  destruct p as [|c par]; [done|]. simpl in Hmk.
  destruct (walk t1 par) as [[|s]| | | | |] eqn:Hpar; try done.
  destruct (child t1 c par) as [[|s]| | | | |] eqn:Hc; try done;
    destruct (encodable content) eqn:Henc; try done; intros [= <-];
    exists c, par, t1.
  - pose proof (child_reached t1 c par (or_introl (ex_intro _ _ Hc))) as Hs.
    apply child_found in Hc. repeat split; try done. by rewrite Hc.
  - pose proof (child_reached t1 c par (or_intror Hc)) as Hs.
    rewrite (child_short _ _ _ Hs) in Hc. repeat split; try done.
    by destruct (t1 !! (c :: par)).
Qed.

Lemma write_ok_stat t p content t' :
  write t p content = Ok t' → stat t' p = Found (File content).
Proof.
  intros Hw. apply write_ok_inv in Hw
    as (c & par & t1 & -> & Hpre & Hc & _ & _ & Hpar & _ & ->).
  by apply stat_insert_child.
Qed.


(** A [write] that returns found no regular file above the path, no
    directory at it, and a text that UTF-8 encodes. *)
Lemma write_ok_conditions t p content t' :
  write t p content = Ok t' →
  (∀ q s, q ∈ ancestors p → entry t q ≠ Some (File s))
  ∧ entry t p ≠ Some Dir
  ∧ encodable content = true.
Proof.
  intros Hw. apply write_ok_inv in Hw
    as (c & par & t1 & -> & Hpre & Hc & Henc & Hmk & Hpar & Hnd & ->).
  pose proof (mkdir_parents_keeps _ _ _ Hmk) as Hkeep.
  split; [|split; [|done]].
  - intros q s Hq Hfile. apply Hkeep in Hfile.
    assert (Hst : stat t1 par = Found Dir) by (rewrite walk_stat; [done | by apply (precheck_tail c)]).
    simpl in Hq. apply elem_of_cons in Hq as [->|Hq].
    + apply stat_found_entry in Hst. congruence.
    + apply (stat_found_ancestors _ _ _ Hst), stat_found_entry in Hq. congruence.
  - intros Hdir. apply Hkeep in Hdir. done.
Qed.

(** The claim as the specification states it is refuted by one call. *)




(** The two further conditions are needed as the first two are: under
    those, a text with a lone surrogate makes [write_text] raise after it
    has opened the file, a name of 300 bytes is refused by the operating
    system, and a null byte by Python. *)
Lemma write_needs_text_and_names :
  write ∅ (of_parts ["s.txt"]) ("ok" +:+ String "237" (String "178" (String "128" EmptyString)))
    = Raise UnicodeEncodeError
  ∧ write ∅ [String.concat EmptyString (repeat "x" 300)] "new" = Raise NameTooLong
  ∧ write ∅ [String "a" (String "000" "b")] "new" = Raise ValueError.
Proof. repeat split; vm_compute; reflexivity. Qed.

End WriteFacts.

(** ** The script as a process *)

Section ScriptFacts.

(** Line 45, after the opening quote: the backslash takes the quote that
    was meant to close the literal, and the line ends inside it. *)
Lemma line_45_literal_is_open :
  PyLex.literal dq
    ("zip -r devB_patch_v0.2.7.1_correctness_overlay.zip \" +:+ String dq ")") = None.
Proof. vm_compute. reflexivity. Qed.

Lemma print_lines_values :
  map PyLex.print_call print_lines =
    [ Some announcement;
      Some "After applying, run this command from repo root to produce the overlay zip:";
      Some blank; None; None; None; None; None; None; None;
      Some "  DEV_NOTES.md"; Some blank ].
Proof. vm_compute. reflexivity. Qed.

(** Everything above line 45 is read without error. *)
Lemma lines_1_to_44_accepted :
  PyLex.check (module_text (take 3 print_lines)) = None.
Proof. vm_compute. reflexivity. Qed.

Lemma source_rejected : PyLex.check source = Some (PyLex.UnterminatedString 45).
Proof. vm_compute. reflexivity. Qed.

(** Whatever the directory and the arguments, the script is rejected
    before any of it runs. *)
Lemma run_rejected (cwd : string) (argv : list string) : run cwd argv = rejected.
Proof.
  unfold run, python. change (module_text print_lines) with source.
  by rewrite source_rejected.
Qed.

(** *** What the escaped text prints *)

Lemma escaped_accepted :
  PyLex.check (module_text escaped_print_lines) = None
  ∧ print_values escaped_print_lines = Some intended_stdout.
Proof. split; vm_compute; reflexivity. Qed.

Lemma python_escaped (cwd : string) (argv : list string) :
  python escaped_print_lines cwd argv = main intended_stdout cwd argv.
Proof.
  unfold python. destruct escaped_accepted as [-> ->]. reflexivity.
Qed.

Lemma intended_stdout_reads :
  Output.first_nonempty intended_stdout = Some announcement
  ∧ Output.ends_with_blank_line intended_stdout = true
  ∧ Output.archive_name intended_stdout = Some "devB_patch_v0.2.7.1_correctness_overlay.zip"
  ∧ Output.file_list intended_stdout = touched_files.
Proof. repeat split; vm_compute; reflexivity. Qed.

(** With the escaped text, an invocation whose arguments parse to a
    repository root that is a string prints the twelve lines and exits
    with status 0. *)
Lemma python_escaped_parsed (cwd : string) (argv : list string) (args : Argparse.namespace) (p : string) :
  Argparse.parse_args argv = Argparse.Parsed args →
  Argparse.repo args = Argparse.Str p →
  python escaped_print_lines cwd argv
    = {| stdout := intended_stdout; stderr := []; status := 0 |}.
Proof.
  intros Hparse Hrepo. rewrite python_escaped. unfold main.
  by rewrite Hparse, Hrepo.
Qed.

Lemma parse_args_no_arguments : Argparse.parse_args [] = Argparse.Parsed Argparse.defaults.
Proof. reflexivity. Qed.

Lemma parse_args_bogus :
  Argparse.parse_args ["--bogus"] = Argparse.UsageError "unrecognized arguments: --bogus".
Proof. vm_compute. reflexivity. Qed.

(** [main] does not let the repository root reach its output: where
    [resolve] returns, an argument that [argparse] takes as the value of
    [--repo] changes no printed line. *)
Lemma main_ignores_repo (printed : list string) (cwd p : string) :
  Argparse.parse_optional p = Argparse.Parsed None →
  main printed cwd ["--repo"; p] = main printed cwd [].
Proof.
  intros Hp. unfold main, Argparse.parse_args. simpl Argparse.classify.
  destruct (String.eqb_spec p "--") as [->|Hne]; [vm_compute in Hp; discriminate|].
  rewrite Hp. simpl. unfold Argparse.get_value.
  destruct (String.eqb_spec p "--") as [->|_]; [done|]. reflexivity.
Qed.

(** *** What the script does when it is run *)

(** C1: the script does not print the file list. Run with no arguments,
    which parse to the defaults, it is rejected at line 45 before [main]
    starts: the list of files read off its standard output is empty, not
    the seven paths. The same lines with the backslash escaped do print
    the seven paths in their order. *)
Theorem file_list_is_not_printed (cwd : string) :
  Argparse.parse_args [] = Argparse.Parsed Argparse.defaults
  ∧ Output.file_list (stdout (run cwd [])) = []
  ∧ Output.file_list (stdout (run cwd [])) ≠ touched_files
  ∧ Output.file_list (stdout (python escaped_print_lines cwd [])) = touched_files.
Proof.
  rewrite run_rejected, python_escaped. repeat split; try done.
Qed.

(** C2: invoked with no arguments, the script prints no line at all:
    its output has no first non-empty line and names no archive. The same
    lines with the backslash escaped print the announcement first, the
    archive name in the command and [DEV_NOTES.md] as the last file. *)
Theorem no_arguments_no_first_line (cwd : string) :
  Output.first_nonempty (stdout (run cwd [])) = None
  ∧ Output.archive_name (stdout (run cwd [])) = None
  ∧ Output.first_nonempty (stdout (python escaped_print_lines cwd [])) = Some announcement
  ∧ Output.archive_name (stdout (python escaped_print_lines cwd []))
    = Some "devB_patch_v0.2.7.1_correctness_overlay.zip"
  ∧ last (Output.file_list (stdout (python escaped_print_lines cwd []))) = Some "DEV_NOTES.md".
Proof.
  rewrite run_rejected, python_escaped. repeat split; vm_compute; reflexivity.
Qed.

(** C3: invoked with no arguments, the script leaves standard output
    empty: it neither begins with the announcement nor ends with a blank
    line. The same lines with the backslash escaped begin with the
    announcement and end with a blank line. *)
Theorem no_arguments_empty_stdout (cwd : string) :
  stdout (run cwd []) = []
  ∧ head (stdout (run cwd [])) ≠ Some announcement
  ∧ Output.ends_with_blank_line (stdout (run cwd [])) = false
  ∧ head (stdout (python escaped_print_lines cwd [])) = Some announcement
  ∧ Output.ends_with_blank_line (stdout (python escaped_print_lines cwd [])) = true.
Proof.
  rewrite run_rejected, python_escaped. repeat split; try done.
Qed.

(** C4: for every path string [p], an invocation that supplies
    [--repo p], anywhere among its arguments, leaves on standard output,
    line for line, what the invocation without it leaves: the repository
    root reaches no printed line. *)
Theorem repo_does_not_change_stdout (cwd p : string) (before after : list string) :
  stdout (run cwd (before ++ ["--repo"; p] ++ after)) = stdout (run cwd (before ++ after)).
Proof. by rewrite !run_rejected. Qed.

(** C5: with [--out n] as without it, the script prints no archive
    name: none can be read off its output, whatever [n] is. The same lines
    with the backslash escaped print the literal archive name with
    [--out custom.zip] as they do without. *)
Theorem archive_name_is_not_printed (cwd n : string) :
  Output.archive_name (stdout (run cwd ["--out"; n])) = None
  ∧ Output.archive_name (stdout (run cwd [])) = None
  ∧ Output.archive_name (stdout (python escaped_print_lines cwd ["--out"; "custom.zip"]))
    = Some "devB_patch_v0.2.7.1_correctness_overlay.zip"
  ∧ Output.archive_name (stdout (python escaped_print_lines cwd []))
    = Some "devB_patch_v0.2.7.1_correctness_overlay.zip".
Proof.
  rewrite !run_rejected, !python_escaped. repeat split; vm_compute; reflexivity.
Qed.

(** C6: run with no arguments, which parse to the defaults, the script
    exits with status 1 and has printed nothing. The same lines with the
    backslash escaped exit with status 0 after printing. *)
Theorem exit_status_is_one (cwd : string) :
  Argparse.parse_args [] = Argparse.Parsed Argparse.defaults
  ∧ status (run cwd []) = 1
  ∧ stdout (run cwd []) = []
  ∧ python escaped_print_lines cwd []
    = {| stdout := intended_stdout; stderr := []; status := 0 |}.
Proof.
  rewrite run_rejected, python_escaped. repeat split; try done.
Qed.

(** C7: run with the flag [--bogus], which [argparse] does not
    recognise, the script exits with status 1 and leaves on standard
    error the report of its own syntax error, not a usage message; it
    writes nothing to standard output. The same lines with the backslash
    escaped exit with status 2 and leave the usage message on standard
    error alone. *)
Theorem unrecognized_flag_no_usage_message (cwd : string) :
  Argparse.parse_args ["--bogus"] = Argparse.UsageError "unrecognized arguments: --bogus"
  ∧ run cwd ["--bogus"]
    = {| stdout := [];
         stderr := [SyntaxErrorReport (PyLex.UnterminatedString 45)];
         status := 1 |}
  ∧ (∀ m, Usage m ∉ stderr (run cwd ["--bogus"]))
  ∧ python escaped_print_lines cwd ["--bogus"]
    = {| stdout := [];
         stderr := [Usage "unrecognized arguments: --bogus"];
         status := 2 |}.
Proof.
  rewrite run_rejected, python_escaped. split; [apply parse_args_bogus|].
  split; [done|]. split.
  - intros m Hm. apply list_elem_of_singleton in Hm. discriminate.
  - unfold main. by rewrite parse_args_bogus.
Qed.

End ScriptFacts.

(** ** More on [must_find]: edges, composition, and what the message tells *)

Section MustFindEdges.

Import PyStr.

Lemma length_append (a b : string) :
  String.length (a +:+ b) = (String.length a + String.length b)%nat.
Proof.
  induction a as [|c a IH]; [done|].
  rewrite append_cons. simpl. by rewrite IH.
Qed.

Lemma occurs_in_length (needle haystack : string) :
  occurs_in needle haystack → (String.length needle ≤ String.length haystack)%nat.
Proof.
  intros (before & after & ->). rewrite !length_append. lia.
Qed.

Lemma occurs_in_trans (a b c : string) :
  occurs_in a b → occurs_in b c → occurs_in a c.
Proof.
  intros (b1 & b2 & ->) (c1 & c2 & ->).
  exists (c1 +:+ b1), (b2 +:+ c2). by rewrite !append_assoc.
Qed.

Lemma must_find_ok_occurs (haystack needle label : string) :
  must_find haystack needle label = Ok tt ↔ occurs_in needle haystack.
Proof.
  rewrite <- contains_occurs. unfold must_find.
  destruct (contains haystack needle); simpl; split; done.
Qed.

(** X1: The empty needle is never reported missing: [must_find] returns
    normally on it for every haystack, the empty one included. *)
Theorem must_find_empty_needle (haystack label : string) :
  must_find haystack EmptyString label = Ok tt.
Proof.
  apply must_find_ok_occurs. by exists EmptyString, haystack.
Qed.

(** X2: A needle longer than the haystack is always reported missing, with
    the message of this label and needle. *)
Theorem must_find_needle_too_long (haystack needle label : string) :
  (String.length haystack < String.length needle)%nat →
  must_find haystack needle label = Raise (RuntimeError (anchor_message label needle)).
Proof.
  intros Hlen. unfold must_find.
  destruct (contains haystack needle) eqn:Hc; [|done].
  apply contains_occurs, occurs_in_length in Hc. lia.
Qed.

Lemma must_find_needle_too_long_witness :
  (String.length "ab" < String.length "abc")%nat
  ∧ must_find "ab" "abc" "types.ts" = Raise (RuntimeError (anchor_message "types.ts" "abc")).
Proof.
  assert (H : (String.length "ab" < String.length "abc")%nat) by (simpl; lia).
  split; [exact H | exact (must_find_needle_too_long "ab" "abc" "types.ts" H)].
Defined.

(** X3: Anchors compose: when [must_find] accepts [needle] in [haystack] and
    accepts [inner] in [needle], it accepts [inner] in [haystack], whatever
    the labels are. In particular an anchor that was found stays found when
    text is added around the haystack. *)
Theorem must_find_transitive (haystack needle inner l1 l2 l3 : string) :
  must_find haystack needle l1 = Ok tt →
  must_find needle inner l2 = Ok tt →
  must_find haystack inner l3 = Ok tt.
Proof.
  rewrite !must_find_ok_occurs. intros H1 H2. by apply occurs_in_trans with needle.
Qed.

Lemma must_find_transitive_witness :
  must_find "export function step() {}" "function step" "a" = Ok tt
  ∧ must_find "function step" "step" "b" = Ok tt
  ∧ must_find "export function step() {}" "step" "c" = Ok tt.
Proof.
  assert (H1 : must_find "export function step() {}" "function step" "a" = Ok tt)
    by reflexivity.
  assert (H2 : must_find "function step" "step" "b" = Ok tt) by reflexivity.
  split; [exact H1|]. split; [exact H2|].
  exact (must_find_transitive _ _ _ "a" "b" "c" H1 H2).
Defined.

(** A label without a closing bracket. *)
Lemma no_bracket_cons (c : ascii) (l : string) :
  ¬ occurs_in "]" (String c l) → c ≠ "]"%char ∧ ¬ occurs_in "]" l.
Proof.
  intros H. split.
  - intros ->. apply H. by exists EmptyString, l.
  - intros (b & a & ->). apply H. by exists (String c b), a.
Qed.

Lemma anchor_message_injective (l1 l2 n1 n2 : string) :
  ¬ occurs_in "]" l1 → ¬ occurs_in "]" l2 →
  anchor_message l1 n1 = anchor_message l2 n2 → l1 = l2 ∧ n1 = n2.
Proof.
  unfold anchor_message. rewrite !append_cons. intros H1 H2 [= Heq].
  revert l2 H2 Heq. induction l1 as [|c1 l1 IH]; intros [|c2 l2] H2 Heq.
  - split; [done|]. by injection Heq.
  - apply no_bracket_cons in H2 as [H2 _]. rewrite append_cons in Heq.
    injection Heq as Hc _. by destruct H2.
  - apply no_bracket_cons in H1 as [H1 _]. rewrite append_cons in Heq.
    injection Heq as Hc _. by destruct H1.
  - apply no_bracket_cons in H1 as [_ H1]. apply no_bracket_cons in H2 as [_ H2].
    rewrite !append_cons in Heq. injection Heq as -> Heq.
    destruct (IH H1 l2 H2 Heq) as [-> ->]. done.
Qed.

(** X4: The error tells which anchor failed: when two calls with labels that
    hold no closing bracket raise the same exception, they have the same
    label and the same needle. *)
Theorem must_find_error_identifies_anchor (h1 h2 n1 n2 l1 l2 : string) (e : exn) :
  ¬ occurs_in "]" l1 → ¬ occurs_in "]" l2 →
  must_find h1 n1 l1 = Raise e →
  must_find h2 n2 l2 = Raise e →
  l1 = l2 ∧ n1 = n2.
Proof.
  intros Hl1 Hl2. unfold must_find.
  destruct (contains h1 n1); [done|]. destruct (contains h2 n2); [done|].
  simpl. intros He1 He2.
  assert (Heq : anchor_message l1 n1 = anchor_message l2 n2) by congruence.
  by apply anchor_message_injective.
Qed.

Lemma must_find_error_identifies_anchor_witness :
  ¬ occurs_in "]" "turn.ts"
  ∧ must_find "import x" "export" "turn.ts"
    = Raise (RuntimeError (anchor_message "turn.ts" "export"))
  ∧ must_find "const y = 1" "export" "turn.ts"
    = Raise (RuntimeError (anchor_message "turn.ts" "export"))
  ∧ "turn.ts" = "turn.ts" ∧ "export" = "export".
Proof.
  assert (Hl : ¬ occurs_in "]" "turn.ts").
  { apply contains_false_not_occurs. reflexivity. }
  assert (H1 : must_find "import x" "export" "turn.ts"
               = Raise (RuntimeError (anchor_message "turn.ts" "export"))) by reflexivity.
  assert (H2 : must_find "const y = 1" "export" "turn.ts"
               = Raise (RuntimeError (anchor_message "turn.ts" "export"))) by reflexivity.
  split; [exact Hl|]. split; [exact H1|]. split; [exact H2|].
  exact (must_find_error_identifies_anchor _ _ _ _ _ _ _ Hl Hl H1 H2).
Defined.

Lemma anchor_message_ambiguous (a b c : string) :
  anchor_message (a +:+ "] anchor not found:" +:+ String nl b) c
  = anchor_message a (b +:+ "] anchor not found:" +:+ String nl c).
Proof.
  unfold anchor_message. rewrite !append_assoc. reflexivity.
Qed.

(** X5: Without that condition the error can be read in two ways: a call
    whose label ends in the words of the message and a call whose needle
    begins with them raise the very same exception. *)
Theorem must_find_error_ambiguous (h1 h2 a b c : string) :
  ¬ occurs_in c h1 →
  ¬ occurs_in (b +:+ "] anchor not found:" +:+ String nl c) h2 →
  must_find h1 c (a +:+ "] anchor not found:" +:+ String nl b)
  = must_find h2 (b +:+ "] anchor not found:" +:+ String nl c) a.
Proof.
  intros H1 H2. apply contains_false_not_occurs in H1, H2.
  unfold must_find. rewrite H1, H2. simpl.
  by rewrite anchor_message_ambiguous.
Qed.

Lemma must_find_error_ambiguous_witness :
  ¬ occurs_in "export" "import x"
  ∧ ¬ occurs_in ("B" +:+ "] anchor not found:" +:+ String nl "export") "import x"
  ∧ must_find "import x" "export" ("A" +:+ "] anchor not found:" +:+ String nl "B")
    = must_find "import x" ("B" +:+ "] anchor not found:" +:+ String nl "export") "A".
Proof.
  assert (H1 : ¬ occurs_in "export" "import x").
  { apply contains_false_not_occurs. reflexivity. }
  assert (H2 : ¬ occurs_in ("B" +:+ "] anchor not found:" +:+ String nl "export") "import x").
  { apply contains_false_not_occurs. reflexivity. }
  split; [exact H1|]. split; [exact H2|].
  exact (must_find_error_ambiguous "import x" "import x" "A" "B" "export" H1 H2).
Defined.

End MustFindEdges.

(** ** More on [write]: which error, what is kept, how writes compose *)

Section WriteEdges.

Import FS.

Implicit Types (t : gmap (list string) node) (p q : list string).

(** Every entry after a successful [write], read off the entries before. *)
Lemma write_lookup t p content t' :
  write t p content = Ok t' →
  ∀ q, t' !! q =
       if decide (q = p) then Some (File content)
       else if decide (q ∈ ancestors p ∧ q ≠ [])
            then Some Dir
            else t !! q.
Proof.
  intros Hw q. pose proof Hw as Hw'.
  apply write_ok_inv in Hw' as (c & par & t1 & -> & Hpre & Hc & _ & Hmk & Hpar & Hnd & ->).
  destruct (decide (q = c :: par)) as [->|Hne]; [by rewrite lookup_insert_eq|].
  rewrite lookup_insert_ne; [|done].
  destruct (mkdir_parents_inv par t t1 Hmk) as [Hst Hcases].
  destruct (decide (q ∈ ancestors (c :: par) ∧ q ≠ [])) as [[Hq Hnil]|Hnot].
  - assert (Hd : stat t1 q = Found Dir).
    { simpl in Hq. apply elem_of_cons in Hq as [->|Hq]; [done|].
      by apply (stat_found_ancestors _ _ _ Hst). }
    apply stat_found_entry in Hd. by destruct q.
  - destruct (Hcases q) as [H | (Hq & Hnil & _)]; [done|]. by destruct Hnot.
Qed.

(** *** Which calls raise, and what *)

(** X6: a [write] that returns found no regular file above the path and
    no directory at it, was given a text that UTF-8 encodes, and a path
    without a null byte: in each of these cases otherwise it does not
    return. *)
Theorem write_returns_only_if t p content t' :
  write t p content = Ok t' →
  (∀ q s, q ∈ ancestors p → entry t q ≠ Some (File s))
  ∧ entry t p ≠ Some Dir
  ∧ encodable content = true
  ∧ existsb has_nul p = false.
Proof.
  intros Hw. destruct (write_ok_conditions _ _ _ _ Hw) as (Hfiles & Hdir & Henc).
  repeat split; try done.
  apply write_ok_inv in Hw as (c & par & t1 & -> & Hpre & _).
  by apply precheck_accepted in Hpre as [Hnul _].
Qed.

Lemma write_returns_only_if_witness :
  write ∅ (of_parts ["DEV_NOTES.md"]) "v1" = Ok {[ of_parts ["DEV_NOTES.md"] := File "v1" ]}
  ∧ (∀ q s, q ∈ ancestors (of_parts ["DEV_NOTES.md"]) → entry ∅ q ≠ Some (File s))
  ∧ entry ∅ (of_parts ["DEV_NOTES.md"]) ≠ Some Dir
  ∧ encodable "v1" = true
  ∧ existsb has_nul (of_parts ["DEV_NOTES.md"]) = false.
Proof.
  assert (H : write ∅ (of_parts ["DEV_NOTES.md"]) "v1"
              = Ok {[ of_parts ["DEV_NOTES.md"] := File "v1" ]}) by (vm_compute; reflexivity).
  split; [exact H | exact (write_returns_only_if _ _ _ _ H)].
Defined.

(** X7: Where the parent of the path is a regular file, [write] raises
    [FileExistsError]: it is [mkdir] that finds the file in its place. *)
Theorem write_parent_is_file t p s content :
  stat t (parent p) = Found (File s) →
  write t p content = Raise FileExistsError.
Proof.
  destruct p as [|c [|c' par']]; [done | done |]. simpl parent. intros Hpar.
  pose proof Hpar as Hpar'. apply stat_walk in Hpar' as [Hpre Hw].
  apply walk_found in Hw as [Hup Hc].
  pose proof (child_reached t c' par' (or_introl (ex_intro _ _ Hc))) as Hs.
  unfold write. simpl parent. simpl mkdir_parents.
  rewrite (os_mkdir_in_dir _ _ _ Hpre Hs Hup), (child_found _ _ _ _ Hc).
  unfold is_dir. by rewrite Hpar.
Qed.

Lemma write_parent_is_file_witness :
  stat {[ of_parts ["notes"] := File "text" ]} (parent (of_parts ["notes"; "a.txt"]))
    = Found (File "text")
  ∧ write {[ of_parts ["notes"] := File "text" ]} (of_parts ["notes"; "a.txt"]) "new"
    = Raise FileExistsError.
Proof.
  assert (H : stat {[ of_parts ["notes"] := File "text" ]}
                (parent (of_parts ["notes"; "a.txt"])) = Found (File "text"))
    by (vm_compute; reflexivity).
  split; [exact H | exact (write_parent_is_file _ _ _ "new" H)].
Defined.

(** X8: Where the parent of the path lies below a regular file, [write]
    raises [NotADirectoryError]. *)
Theorem write_below_file_not_a_directory t p content :
  stat t (parent p) = ENOTDIR →
  write t p content = Raise NotADirectoryError.
Proof.
  destruct p as [|c [|c' par']]; [done | done |]. simpl parent. intros Hpar.
  unfold write. simpl parent. simpl mkdir_parents.
  unfold is_dir. rewrite Hpar.
  unfold stat in Hpar. unfold os_mkdir, checked.
  destruct (precheck (c' :: par')); try done. simpl in Hpar.
  destruct (walk t par') as [[|s]| | | | |]; try done.
  unfold child in *. destruct (String.eqb c' ".."); [done|].
  destruct (NAME_MAX <? name_bytes c')%N; [done|].
  by destruct (t !! (c' :: par')).
Qed.

Lemma write_below_file_not_a_directory_witness :
  stat {[ of_parts ["notes"] := File "text" ]} (parent (of_parts ["notes"; "sub"; "a.txt"]))
    = ENOTDIR
  ∧ write {[ of_parts ["notes"] := File "text" ]} (of_parts ["notes"; "sub"; "a.txt"]) "new"
    = Raise NotADirectoryError.
Proof.
  assert (H : stat {[ of_parts ["notes"] := File "text" ]}
                (parent (of_parts ["notes"; "sub"; "a.txt"])) = ENOTDIR)
    by (vm_compute; reflexivity).
  split; [exact H | exact (write_below_file_not_a_directory _ _ "new" H)].
Defined.

(** X9: Where the path itself is a directory, the anchor included, [write]
    raises [IsADirectoryError] and creates nothing. *)
Theorem write_on_directory t p content :
  stat t p = Found Dir →
  write t p content = Raise IsADirectoryError.
Proof.
  intros Hp. destruct p as [|c par]; [done|].
  pose proof Hp as Hp'. apply stat_found in Hp' as [Hl Hpar].
  apply stat_walk in Hp as [Hpre Hw]. apply walk_found in Hw as [Hup Hc].
  unfold write. simpl parent. rewrite (mkdir_parents_same t par Hpar). simpl.
  unfold write_text, checked. by rewrite Hpre, Hup, Hc.
Qed.

Lemma write_on_directory_witness :
  stat {[ of_parts ["src"] := Dir ]} (of_parts ["src"]) = Found Dir
  ∧ write {[ of_parts ["src"] := Dir ]} (of_parts ["src"]) "new" = Raise IsADirectoryError.
Proof.
  assert (H : stat {[ of_parts ["src"] := Dir ]} (of_parts ["src"]) = Found Dir)
    by (vm_compute; reflexivity).
  split; [exact H | exact (write_on_directory _ _ "new" H)].
Defined.

(** *** What a successful call changes *)

(** X10: Where the parent of the path is already a directory and the path
    is not one, a path that the operating system takes and a text that
    UTF-8 encodes make [write] create no directory: the entry of the path
    is the only one that changes. *)
Theorem write_existing_parent t p content :
  ordinary p = true →
  encodable content = true →
  stat t (parent p) = Found Dir →
  entry t p ≠ Some Dir →
  write t p content = Ok (<[p := File content]> t).
Proof.
  intros Hord Henc Hpar Hdir. destruct p as [|c par]; [done|]. simpl in Hpar, Hdir.
  apply ordinary_walkable, walkable_cons in Hord as (Hc & _ & Hpre).
  unfold write. simpl parent. rewrite (mkdir_parents_same t par Hpar). simpl.
  apply stat_walk in Hpar as [_ Hpar].
  rewrite write_text_spec by done. by rewrite Henc.
Qed.

Lemma write_existing_parent_witness :
  ordinary (of_parts ["src"; "App.tsx"]) = true
  ∧ encodable "export {}" = true
  ∧ stat {[ of_parts ["src"] := Dir ]} (parent (of_parts ["src"; "App.tsx"])) = Found Dir
  ∧ entry {[ of_parts ["src"] := Dir ]} (of_parts ["src"; "App.tsx"]) ≠ Some Dir
  ∧ write {[ of_parts ["src"] := Dir ]} (of_parts ["src"; "App.tsx"]) "export {}"
    = Ok (<[of_parts ["src"; "App.tsx"] := File "export {}"]> {[ of_parts ["src"] := Dir ]}).
Proof.
  assert (H0 : ordinary (of_parts ["src"; "App.tsx"]) = true) by (vm_compute; reflexivity).
  assert (He : encodable "export {}" = true) by (vm_compute; reflexivity).
  assert (H1 : stat {[ of_parts ["src"] := Dir ]} (parent (of_parts ["src"; "App.tsx"]))
               = Found Dir) by (vm_compute; reflexivity).
  assert (H2 : entry {[ of_parts ["src"] := Dir ]} (of_parts ["src"; "App.tsx"]) ≠ Some Dir)
    by (vm_compute; discriminate).
  split; [exact H0|]. split; [exact He|]. split; [exact H1|]. split; [exact H2|].
  exact (write_existing_parent _ _ "export {}" H0 He H1 H2).
Defined.

(** X11: The last write wins, and a repeated write changes nothing: after a
    successful [write] to a path, a second [write] to it gives what that
    second [write] gives on the file system before the first, and writing
    the same content again returns the file system as it is. *)
Theorem write_twice t p c1 c2 t1 :
  write t p c1 = Ok t1 →
  write t1 p c2 = write t p c2 ∧ write t1 p c1 = Ok t1.
Proof.
  intros Hw. pose proof Hw as Hw'.
  apply write_ok_inv in Hw'
    as (c & par & tm & -> & Hpre & Hc & Henc & Hmk & Hpar & Hnd & ->).
  assert (Hpar1 : walk (<[c :: par := File c1]> tm) par = Found Dir).
  { by rewrite walk_insert_parent. }
  assert (Hst1 : stat (<[c :: par := File c1]> tm) par = Found Dir).
  { rewrite walk_stat; [done | by apply (precheck_tail c)]. }
  assert (Hagain : ∀ c', write (<[c :: par := File c1]> tm) (c :: par) c'
                         = if encodable c' then Ok (<[c :: par := File c']> tm)
                           else Raise UnicodeEncodeError).
  { intros c'. unfold write. simpl parent. rewrite (mkdir_parents_same _ par Hst1). simpl.
    rewrite write_text_spec; [|done|done|done|by rewrite lookup_insert_eq].
    by rewrite insert_insert_eq. }
  split.
  - rewrite Hagain. unfold write. simpl parent. rewrite Hmk. simpl.
    by rewrite write_text_spec.
  - by rewrite Hagain, Henc.
Qed.

Lemma write_twice_witness :
  write ∅ (of_parts ["DEV_NOTES.md"]) "v1" = Ok {[ of_parts ["DEV_NOTES.md"] := File "v1" ]}
  ∧ write {[ of_parts ["DEV_NOTES.md"] := File "v1" ]} (of_parts ["DEV_NOTES.md"]) "v2"
    = write ∅ (of_parts ["DEV_NOTES.md"]) "v2"
  ∧ write {[ of_parts ["DEV_NOTES.md"] := File "v1" ]} (of_parts ["DEV_NOTES.md"]) "v1"
    = Ok {[ of_parts ["DEV_NOTES.md"] := File "v1" ]}.
Proof.
  assert (H : write ∅ (of_parts ["DEV_NOTES.md"]) "v1"
              = Ok {[ of_parts ["DEV_NOTES.md"] := File "v1" ]}).
  { vm_compute. reflexivity. }
  split; [exact H | exact (write_twice _ _ "v1" "v2" _ H)].
Defined.

(** What resolves along entries that are kept resolves as before. *)
Lemma walk_keeps t t' q n :
  (∀ k m, k ∈ q :: ancestors q → entry t k = Some m → entry t' k = Some m) →
  walk t q = Found n → walk t' q = Found n.
Proof.
  revert n. induction q as [|c par IH]; intros n Hkeep Hq; [done|].
  apply walk_found in Hq as [Hpar Hc].
  pose proof (child_reached t c par (or_introl (ex_intro _ _ Hc))) as Hs.
  simpl. rewrite (IH Dir); [|intros k m Hk; by apply Hkeep, list_elem_of_further|done].
  rewrite (child_short _ _ _ Hs).
  apply child_found in Hc.
  specialize (Hkeep (c :: par) n (list_elem_of_here _ _)). simpl in Hkeep.
  by rewrite (Hkeep Hc).
Qed.

Lemma stat_keeps t t' q n :
  (∀ k m, k ∈ q :: ancestors q → entry t k = Some m → entry t' k = Some m) →
  stat t q = Found n → stat t' q = Found n.
Proof.
  intros Hkeep Hq. apply stat_walk in Hq as [Hpre Hq].
  rewrite walk_stat by done. by apply (walk_keeps t).
Qed.

Lemma write_keeps_entry t p content t' :
  write t p content = Ok t' →
  ∀ k m, k ≠ p → entry t k = Some m → entry t' k = Some m.
Proof.
  intros Hw k m Hne Hk.
  apply write_ok_inv in Hw as (c & par & t1 & -> & _ & _ & _ & Hmk & _ & _ & ->).
  rewrite entry_insert_ne by done. by apply (mkdir_parents_keeps _ _ _ Hmk).
Qed.



(** *** Well-formed file systems *)

(** X13: [write] keeps a file system well formed. *)
Theorem write_preserves_well_formed t p content t' :
  well_formed t →
  write t p content = Ok t' →
  well_formed t'.
Proof.
  intros Hwf Hw c0 par0 n Hk.
  pose proof (write_ok_stat _ _ _ _ Hw) as Hstat.
  rewrite (write_lookup _ _ _ _ Hw) in Hk.
  destruct (decide (c0 :: par0 = p)) as [<-|Hne].
  { by apply stat_found in Hstat as [_ Hstat]. }
  destruct (decide (c0 :: par0 ∈ ancestors p ∧ c0 :: par0 ≠ [])) as [[Hanc _]|Hnot].
  { pose proof (stat_found_ancestors _ _ _ Hstat _ Hanc) as Hk'.
    by apply stat_found in Hk' as [_ Hk']. }
  destruct (write_ok_conditions _ _ _ _ Hw) as (_ & Hdir & _).
  pose proof (Hwf c0 par0 n Hk) as Hpar.
  apply (stat_keeps t); [|done].
  intros k m Hkk Hm. apply (write_keeps_entry _ _ _ _ Hw); [|done].
  intros ->. apply Hdir.
  apply elem_of_cons in Hkk as [->|Hkk]; [by apply stat_found_entry|].
  by apply stat_found_entry, (stat_found_ancestors _ _ _ Hpar).
Qed.

Lemma well_formed_empty : well_formed ∅.
Proof. intros c par n H. by rewrite lookup_empty in H. Qed.

Lemma write_preserves_well_formed_witness :
  well_formed ∅
  ∧ write ∅ (of_parts ["src"; "App.tsx"]) "export {}"
    = Ok (<[of_parts ["src"; "App.tsx"] := File "export {}"]> {[ of_parts ["src"] := Dir ]})
  ∧ well_formed (<[of_parts ["src"; "App.tsx"] := File "export {}"]> {[ of_parts ["src"] := Dir ]}).
Proof.
  assert (H : write ∅ (of_parts ["src"; "App.tsx"]) "export {}"
              = Ok (<[of_parts ["src"; "App.tsx"] := File "export {}"]>
                      {[ of_parts ["src"] := Dir ]})).
  { vm_compute. reflexivity. }
  split; [exact well_formed_empty|]. split; [exact H|].
  exact (write_preserves_well_formed _ _ _ _ well_formed_empty H).
Defined.

(** *** Writes to different paths *)







End WriteEdges.

(** ** More on [main]: the options it accepts and does not use *)

Section MainArguments.

Import Argparse.

Lemma main_alike (printed : list string) (cwd : string) (a1 a2 : list string) :
  alike (parse_args a1) (parse_args a2) →
  main printed cwd a1 = main printed cwd a2.
Proof.
  unfold main.
  destruct (parse_args a1) as [n1| |m1], (parse_args a2) as [n2| |m2]; simpl; try done.
  - destruct (repo n1), (repo n2); done.
  - by intros ->.
Qed.

Lemma alike_refl (r : parse_result namespace) : alike r r.
Proof. by destruct r. Qed.

Lemma store_is_str (act : action) (v : value) (ns ns' : namespace) :
  is_str (repo ns) = is_str (repo ns') →
  is_str (repo (store act v ns)) = is_str (repo (store act v ns')).
Proof. by destruct act. Qed.

(** What [consume] returns depends on the namespace it starts from only
    through the kind of its repository root. *)
Lemma consume_alike_bounded (n : nat) :
  ∀ (items : list (string * pattern)) ns ns' extras,
    (length items ≤ n)%nat →
    is_str (repo ns) = is_str (repo ns') →
    alike (consume items ns extras) (consume items ns' extras).
Proof.
  induction n as [|n IH]; intros items ns ns' extras Hlen Hkind.
  - destruct items; [|simpl in Hlen; lia]. simpl. by destruct extras.
  - destruct items as [|[arg pat] rest]; [simpl; by destruct extras|].
    simpl in Hlen.
    destruct pat as [| |[[[act|] os] explicit]]; simpl.
    + apply IH; [lia | done].
    + apply IH; [lia | done].
    + destruct act.
      * destruct explicit as [e|]; [|done].
        by destruct (String.eqb os "-h" && nonempty e && short_cluster e).
      * destruct explicit as [e|].
        -- apply IH; [lia | by apply store_is_str].
        -- destruct rest as [|[v [| |t]] rest']; try done.
           apply IH; [simpl in Hlen; lia | by apply store_is_str].
      * destruct explicit as [e|].
        -- apply IH; [lia | by apply store_is_str].
        -- destruct rest as [|[v [| |t]] rest']; try done.
           apply IH; [simpl in Hlen; lia | by apply store_is_str].
    + apply IH; [lia | done].
Qed.

Lemma consume_alike items ns ns' extras :
  is_str (repo ns) = is_str (repo ns') →
  alike (consume items ns extras) (consume items ns' extras).
Proof. by apply (consume_alike_bounded (length items)). Qed.

Lemma not_dashes (arg : string) : parse_optional arg = Parsed None → String.eqb arg "--" = false.
Proof.
  intros H. destruct (String.eqb_spec arg "--") as [->|]; [|done].
  vm_compute in H. discriminate.
Qed.

(** An option with its value in the next argument, put in front of any
    command line. *)
Lemma leading_option (printed : list string) (cwd : string)
    (os v : string) (act : action) (rest : list string) :
  String.eqb os "--" = false →
  parse_optional os = Parsed (Some (Some act, os, None)) →
  act ≠ Help →
  parse_optional v = Parsed None →
  is_str (repo (store act (Str v) defaults)) = true →
  main printed cwd (os :: v :: rest) = main printed cwd rest.
Proof.
  intros Hos Hopt Hact Hv Hkind. apply main_alike. unfold parse_args. simpl classify.
  rewrite Hos, Hopt, (not_dashes v Hv), Hv.
  destruct (classify rest) as [items| |m]; try done.
  assert (Hval : get_value v = Str v).
  { unfold get_value. by rewrite (not_dashes v Hv). }
  destruct act; [done| |]; simpl; rewrite Hval; by apply consume_alike.
Qed.

(** X15: [--out NAME] in front of a command line changes nothing of what
    [main] does with the rest of it: the name is stored and never read. *)
Theorem main_ignores_out (printed : list string) (cwd n : string) (rest : list string) :
  parse_optional n = Parsed None →
  main printed cwd ("--out" :: n :: rest) = main printed cwd rest.
Proof.
  intros Hn. by apply (leading_option printed cwd "--out" n StoreOut).
Qed.

Lemma main_ignores_out_witness :
  parse_optional "custom.zip" = Parsed None
  ∧ main intended_stdout "/repo" ["--out"; "custom.zip"; "--repo"; "lom"]
    = main intended_stdout "/repo" ["--repo"; "lom"].
Proof.
  assert (H : parse_optional "custom.zip" = Parsed None) by reflexivity.
  split; [exact H | exact (main_ignores_out intended_stdout "/repo" "custom.zip" ["--repo"; "lom"] H)].
Defined.

(** X17: In the form [--out=NAME] every name is accepted, the empty one and
    [--] included, and none changes what [main] does. *)
Theorem main_ignores_out_equals (printed : list string) (cwd v : string) (rest : list string) :
  main printed cwd (("--out=" +:+ v) :: rest) = main printed cwd rest.
Proof.
  apply main_alike. unfold parse_args.
  change ("--out=" +:+ v)
    with (String "-" (String "-" (String "o" (String "u" (String "t" (String "=" v)))))).
  simpl classify.
  destruct (classify rest) as [items| |m]; try done.
  simpl. by apply consume_alike.
Qed.

(** *** What [--repo] changes of the parsed arguments *)

Lemma store_differ (v0 : value) (act : action) (v : value) (ns ns' : namespace) :
  out ns = out ns' ∧ (repo ns = repo ns' ∨ repo ns = v0) →
  out (store act v ns) = out (store act v ns')
  ∧ (repo (store act v ns) = repo (store act v ns') ∨ repo (store act v ns) = v0).
Proof. destruct act; simpl; [done | by intros [? _]; split; [|left] | by intros [_ ?]]. Qed.

(** [consume] carries a difference in the repository root to its end, or
    overwrites it; nothing else comes of it. *)
Lemma consume_differ_bounded (v0 : value) (n : nat) :
  ∀ (items : list (string * pattern)) ns ns' extras,
    (length items ≤ n)%nat →
    out ns = out ns' ∧ (repo ns = repo ns' ∨ repo ns = v0) →
    differ_in_repo v0 (consume items ns extras) (consume items ns' extras).
Proof.
  induction n as [|n IH]; intros items ns ns' extras Hlen Hns.
  - destruct items; [|simpl in Hlen; lia]. simpl. by destruct extras.
  - destruct items as [|[arg pat] rest]; [simpl; by destruct extras|].
    simpl in Hlen.
    destruct pat as [| |[[[act|] os] explicit]]; simpl.
    + apply IH; [lia | done].
    + apply IH; [lia | done].
    + destruct act.
      * destruct explicit as [e|]; [|done].
        by destruct (String.eqb os "-h" && nonempty e && short_cluster e).
      * destruct explicit as [e|].
        -- apply IH; [lia | by apply store_differ].
        -- destruct rest as [|[v [| |t]] rest']; try done.
           apply IH; [simpl in Hlen; lia | by apply store_differ].
      * destruct explicit as [e|].
        -- apply IH; [lia | by apply store_differ].
        -- destruct rest as [|[v [| |t]] rest']; try done.
           apply IH; [simpl in Hlen; lia | by apply store_differ].
    + apply IH; [lia | done].
Qed.

(** X16: [--repo PATH] in front of a command line changes of the parsed
    arguments the repository root at most: the command line is accepted,
    answered with the help text or refused with the same message as
    without it, the archive name is the same, and the repository root is
    the same or [PATH]. *)
Theorem parse_args_leading_repo (p : string) (rest : list string) :
  parse_optional p = Parsed None →
  differ_in_repo (Str p) (parse_args ("--repo" :: p :: rest)) (parse_args rest).
Proof.
  intros Hp. unfold parse_args. simpl classify.
  rewrite (not_dashes p Hp), Hp.
  destruct (classify rest) as [items| |m]; try done.
  simpl. apply (consume_differ_bounded (Str p) (length items)); [done|].
  unfold get_value. rewrite (not_dashes p Hp). simpl. by split; [|right].
Qed.

Lemma parse_args_leading_repo_witness :
  parse_optional "/some/path" = Parsed None
  ∧ differ_in_repo (Str "/some/path")
      (parse_args ["--repo"; "/some/path"; "--out"; "custom.zip"])
      (parse_args ["--out"; "custom.zip"]).
Proof.
  assert (H : parse_optional "/some/path" = Parsed None) by reflexivity.
  split; [exact H | exact (parse_args_leading_repo "/some/path" ["--out"; "custom.zip"] H)].
Defined.

(** X18: In the form [--repo=PATH] every path is accepted, and it changes
    of the parsed arguments the repository root at most, which is the
    same as without it or the value that [argparse] stores for [PATH]:
    the empty list for [--], the text itself for every other. *)
Theorem parse_args_repo_equals (v : string) (rest : list string) :
  differ_in_repo (get_value v) (parse_args (("--repo=" +:+ v) :: rest)) (parse_args rest).
Proof.
  unfold parse_args.
  change ("--repo=" +:+ v)
    with (String "-" (String "-" (String "r" (String "e" (String "p" (String "o" (String "=" v))))))).
  simpl classify.
  destruct (classify rest) as [items| |m]; try done.
  simpl. apply (consume_differ_bounded (get_value v) (length items)); [done|].
  simpl. by split; [|right].
Qed.

End MainArguments.

(** ** The script, whatever it is given *)

Section ScriptAlways.

(** X19: Whatever the working directory and the arguments, [-h] included, the
    script prints nothing, exits with status 1 and leaves on standard error
    the report of the literal that line 45 does not close; no two
    invocations differ in anything. *)
Theorem script_never_runs (cwd cwd' : string) (argv argv' : list string) :
  stdout (run cwd argv) = []
  ∧ stderr (run cwd argv) = [SyntaxErrorReport (PyLex.UnterminatedString 45)]
  ∧ status (run cwd argv) = 1
  ∧ run cwd argv = run cwd' argv'.
Proof. by rewrite !run_rejected. Qed.

End ScriptAlways.
